(** * petpy: parameter validation, parameter assembly and page aggregation

    A shallow embedding of [petpy/api.py]: the module-level helpers
    [_check_parameters] and [_parameters], the two search methods
    [Petfinder.animals] and [Petfinder.organizations], and the two type
    methods [Petfinder.animal_types] and [Petfinder.breeds].

    Python values are modelled with the types the docstrings give them:
    - single-valued string filters are [option string] ([None] is Python's
      [None]);
    - filters that take "str, tuple or list" are [option multi];
    - [distance], [results_per_page], [pages] are [option Z];
    - a character of a [string] is read as the code point of the same number
      (0..255), which is all that [repr] needs.
    HTTP is modelled by a function from requests to responses together with
    a log of the requests issued and of the lines printed. The type methods
    index the bodies they receive, so that for them a response is a decoded
    JSON value. *)

From Stdlib Require Import Ascii.
From stdpp Require Import gmap strings list fin_maps pretty.

Local Open Scope Z_scope.

(* ===================================================================== *)
(** * Python built-ins used by the module *)
(* ===================================================================== *)

Module Py.

(** Exceptions that can leave the functions of the module. *)
Inductive exn :=
| ValueError (msg : string)
| KeyError (key : string)
| RequestException.

Inductive result (A : Type) :=
| Ok (a : A)
| Raise (e : exn).
Arguments Ok {A} a.
Arguments Raise {A} e.

Definition squote : ascii := Ascii.ascii_of_N 39.
Definition dquote : ascii := Ascii.ascii_of_N 34.
Definition backslash : ascii := Ascii.ascii_of_N 92.
(** ['\n'] *)
Definition newline : string := String (Ascii.ascii_of_N 10) EmptyString.

Definition hexdigit (n : N) : ascii :=
  match String.get (N.to_nat n) "0123456789abcdef" with
  | Some c => c
  | None => Ascii.zero
  end.

(** [Py_UNICODE_ISPRINTABLE] on the code points above 0x7f and up to 0xff:
    0x80..0x9f are controls, 0xa0 is a separator, 0xad is a format
    character; the others are printable. *)
Definition isprintable_latin1 (c : N) : bool :=
  ((161 <=? c) && negb (c =? 173))%N.

(** One character of [repr(s)], for the chosen quote. *)
Definition repr_char (quote ch : ascii) : string :=
  let c := Ascii.N_of_ascii ch in
  if bool_decide (ch = quote) || bool_decide (ch = backslash)
  then String backslash (String ch EmptyString)
  else if (c =? 9)%N then "\t"
  else if (c =? 10)%N then "\n"
  else if (c =? 13)%N then "\r"
  else if ((c <? 32) || (c =? 127))%N
  then String backslash (String "x"%char (String (hexdigit (c / 16)) (String (hexdigit (c mod 16)) EmptyString)))
  else if (c <? 127)%N then String ch EmptyString
  else if isprintable_latin1 c then String ch EmptyString
  else String backslash (String "x"%char (String (hexdigit (c / 16)) (String (hexdigit (c mod 16)) EmptyString))).

Fixpoint contains_char (ch : ascii) (s : string) : bool :=
  match s with
  | EmptyString => false
  | String c s' => bool_decide (c = ch) || contains_char ch s'
  end.

Fixpoint repr_chars (quote : ascii) (s : string) : string :=
  match s with
  | EmptyString => EmptyString
  | String c s' => repr_char quote c +:+ repr_chars quote s'
  end.

(** [repr(s)] for a [str]: single quotes, unless the string holds a single
    quote and no double quote. *)
Definition repr_str (s : string) : string :=
  let quote := if contains_char squote s && negb (contains_char dquote s)
               then dquote else squote in
  String quote (repr_chars quote s +:+ String quote EmptyString).

(** [repr(t)] for a tuple of [str]. *)
Definition repr_tuple (t : list string) : string :=
  match t with
  | [x] => "(" +:+ repr_str x +:+ ",)"
  | _ => "(" +:+ String.concat ", " (map repr_str t) +:+ ")"
  end.

(** [repr(s)] for a set of [str] whose elements are iterated in the order
    [elems]. *)
Definition repr_set (elems : list string) : string :=
  match elems with
  | [] => "set()"
  | _ => "{" +:+ String.concat ", " (map repr_str elems) +:+ "}"
  end.

(** [x in t] for a tuple [t]. *)
Definition contains (t : list string) (x : string) : bool :=
  bool_decide (x ∈ t).

(** [range(lo, hi)] *)
Definition range (lo hi : Z) : list Z := seqZ lo (hi - lo).

(** The iteration order of a [set] is fixed by the interpreter (for [str]
    it changes with the hash seed), not by the program.
    [difference_iter xs ys] is the order in which the interpreter at hand
    iterates over [set(xs).difference(ys)]; all the program may rely on is
    that these are the distinct elements of [xs] that are not in [ys]. *)
Class SetOrder := {
  difference_iter : list string → list string → list string;
  difference_iter_perm xs ys :
    difference_iter xs ys ≡ₚ list_difference (remove_dups xs) ys
}.

(** A [dict] with [str] keys, in insertion order: [d[k] = v]. *)
Fixpoint dict_set {V : Type} (k : string) (v : V) (d : list (string * V)) : list (string * V) :=
  match d with
  | [] => [(k, v)]
  | (k', v') :: d' =>
      if bool_decide (k' = k) then (k', v) :: d' else (k', v') :: dict_set k v d'
  end.

End Py.

Import Py.

(** An interpreter whose sets iterate in first-insertion order. *)
#[export] Program Instance insertion_order : SetOrder :=
  {| difference_iter xs ys := list_difference (remove_dups xs) ys |}.
Next Obligation. reflexivity. Qed.

(* ===================================================================== *)
(** * [_check_parameters] *)
(* ===================================================================== *)

(** A filter documented as "str, tuple or list". *)
Inductive multi :=
| Scalar (s : string)
| Collection (l : list string).

Module Validator.

Definition _animal_types : list string :=
  ["dog"; "cat"; "rabbit"; "small-furry"; "horse"; "bird"; "scales-fins-other"; "barnyard"].
Definition _sizes : list string := ["small"; "medium"; "large"; "xlarge"].
Definition _genders : list string := ["male"; "female"; "unknown"].
Definition _ages : list string := ["baby"; "young"; "adult"; "senior"].
Definition _coats : list string := ["short"; "medium"; "long"; "wire"; "hairless"; "curly"].
Definition _status : list string := ["adoptable"; "adopted"; "found"].
Definition _location : list string := ["city,state"; "latitude,longitude"; "postal code"].
Definition _sort : list string := ["recent"; "-recent"; "distance"; "-distance"].

(** [if isinstance(x, str): x = [x]] *)
Definition as_list (x : multi) : list string :=
  match x with
  | Scalar s => [s]
  | Collection l => l
  end.

Definition animal_types_message (types : string) : string :=
  "animal types " +:+ types +:+ " is not valid. Animal types must of the following: "
    +:+ repr_tuple _animal_types.
Definition size_message (diff : list string) : string :=
  "sizes " +:+ repr_set diff +:+ " are not valid. Sizes must be of the following: "
    +:+ repr_tuple _sizes.
Definition gender_message (diff : list string) : string :=
  "genders " +:+ repr_set diff +:+ " are not valid. Genders must be of the following: "
    +:+ repr_tuple _genders.
Definition age_message (diff : list string) : string :=
  "ages " +:+ repr_set diff +:+ " are not valid. Ages must be of the following: "
    +:+ repr_tuple _ages.
Definition coat_message (diff : list string) : string :=
  "coats " +:+ repr_set diff +:+ " are not valid. Coats must be of the following: "
    +:+ repr_tuple _coats.
Definition status_message (status : string) : string :=
  "animal status " +:+ status +:+ " is not valid. Status must be of the following: "
    +:+ repr_tuple _status.
Definition sort_message (sort : string) : string :=
  "sort order " +:+ sort +:+ " must be one of: " +:+ repr_tuple _sort.
Definition location_message (location : string) : string :=
  "location " +:+ location +:+ " must be one of: " +:+ repr_tuple _location.
Definition distance_message : string := "distance cannot be greater than 500".
Definition limit_message : string := "results per page cannot be greater than 100".

(** The body of [_check_parameters] up to the final test: the dict
    [incorrect_values] after the ten checks, in source order. *)
Definition incorrect_values `{SetOrder}
    (animal_types : option string) (size gender age coat : option multi)
    (status location : option string) (distance : option Z)
    (sort : option string) (limit : option Z) : list (string * string) :=
  let incorrect_values : list (string * string) := [] in
  let incorrect_values :=
    match animal_types with
    | Some t =>
        if negb (contains _animal_types t)
        then dict_set "animal_types" (animal_types_message t) incorrect_values
        else incorrect_values
    | None => incorrect_values
    end in
  let incorrect_values :=
    match size with
    | Some size =>
        let size := as_list size in
        let diff := difference_iter size _sizes in
        if (0 <? length diff)%nat
        then dict_set "size" (size_message diff) incorrect_values
        else incorrect_values
    | None => incorrect_values
    end in
  let incorrect_values :=
    match gender with
    | Some gender =>
        let gender := as_list gender in
        let diff := difference_iter gender _genders in
        if (0 <? length diff)%nat
        then dict_set "gender" (gender_message diff) incorrect_values
        else incorrect_values
    | None => incorrect_values
    end in
  let incorrect_values :=
    match age with
    | Some age =>
        let age := as_list age in
        let diff := difference_iter age _ages in
        if (0 <? length diff)%nat
        then dict_set "age" (age_message diff) incorrect_values
        else incorrect_values
    | None => incorrect_values
    end in
  let incorrect_values :=
    match coat with
    | Some coat =>
        let coat := as_list coat in
        let diff := difference_iter coat _coats in
        if (0 <? length diff)%nat
        then dict_set "coat" (coat_message diff) incorrect_values
        else incorrect_values
    | None => incorrect_values
    end in
  let incorrect_values :=
    match status with
    | Some s =>
        if negb (contains _status s)
        then dict_set "status" (status_message s) incorrect_values
        else incorrect_values
    | None => incorrect_values
    end in
  let incorrect_values :=
    match sort with
    | Some s =>
        if negb (contains _sort s)
        then dict_set "sort" (sort_message s) incorrect_values
        else incorrect_values
    | None => incorrect_values
    end in
  let incorrect_values :=
    match location with
    | Some l =>
        if negb (contains _location l)
        then dict_set "location" (location_message l) incorrect_values
        else incorrect_values
    | None => incorrect_values
    end in
  let incorrect_values :=
    match distance with
    | Some d =>
        if 500 <? d
        then dict_set "distance" distance_message incorrect_values
        else incorrect_values
    | None => incorrect_values
    end in
  let incorrect_values :=
    match limit with
    | Some l =>
        if 100 <? l
        then dict_set "limit" limit_message incorrect_values
        else incorrect_values
    | None => incorrect_values
    end in
  incorrect_values.

(** [for k, v in incorrect_values.items(): errors = errors + v + '\n'] *)
Definition join_errors (incorrect_values : list (string * string)) : string :=
  fold_left (λ errors kv, (errors +:+ kv.2) +:+ newline) incorrect_values "".

Definition _check_parameters `{SetOrder}
    (animal_types : option string) (size gender age coat : option multi)
    (status location : option string) (distance : option Z)
    (sort : option string) (limit : option Z) : result unit :=
  let incorrect_values :=
    incorrect_values animal_types size gender age coat status location distance sort limit in
  if (0 <? length incorrect_values)%nat
  then Raise (ValueError (join_errors incorrect_values))
  else Ok tt.

End Validator.

Import Validator.


(* ===================================================================== *)
(** * [_parameters] *)
(* ===================================================================== *)

(** The values that travel in a query: a [str], a list or tuple of [str],
    an [int]. *)
Inductive pyval :=
| PStr (s : string)
| PSeq (l : list string)
| PInt (z : Z).

Definition of_multi (x : multi) : pyval :=
  match x with
  | Scalar s => PStr s
  | Collection l => PSeq l
  end.

(** Keyword arguments of [_parameters]; every one defaults to [None]. *)
Module Params.
Record kwargs := {
  animal : option pyval;
  breed : option pyval;
  size : option multi;
  gender : option multi;
  color : option pyval;
  coat : option multi;
  animal_type : option string;
  location : option string;
  distance : option Z;
  state : option pyval;
  country : option pyval;
  query : option pyval;
  sort : option string;
  name : option pyval;
  age : option multi;
  animal_id : option pyval;
  organization_id : option pyval;
  status : option string;
  results_per_page : option Z;
  page : option Z
}.

Definition defaults : kwargs :=
  {| animal := None; breed := None; size := None; gender := None; color := None;
     coat := None; animal_type := None; location := None; distance := None;
     state := None; country := None; query := None; sort := None; name := None;
     age := None; animal_id := None; organization_id := None; status := None;
     results_per_page := None; page := None |}.
End Params.

Module Assembler.

#[export] Instance result_ret : MRet result := λ A a, Ok a.
#[export] Instance result_bind : MBind result := λ A B f m,
  match m with
  | Ok a => f a
  | Raise e => Raise e
  end.

(** The dict literal [args] of [_parameters], [None] values included. *)
Definition args (k : Params.kwargs) : gmap string (option pyval) :=
  list_to_map [
    ("animal", Params.animal k);
    ("breed", Params.breed k);
    ("size", of_multi <$> Params.size k);
    ("gender", of_multi <$> Params.gender k);
    ("age", of_multi <$> Params.age k);
    ("color", Params.color k);
    ("coat", of_multi <$> Params.coat k);
    ("animal_type", PStr <$> Params.animal_type k);
    ("location", PStr <$> Params.location k);
    ("distance", PInt <$> Params.distance k);
    ("state", Params.state k);
    ("country", Params.country k);
    ("query", Params.query k);
    ("sort", PStr <$> Params.sort k);
    ("name", Params.name k);
    ("animal_id", Params.animal_id k);
    ("organization_id", Params.organization_id k);
    ("status", PStr <$> Params.status k);
    ("limit", PInt <$> Params.results_per_page k);
    ("page", PInt <$> Params.page k)
  ].

Definition _parameters `{SetOrder} (k : Params.kwargs) : result (gmap string pyval) :=
  _ ← _check_parameters (Params.animal_type k) (Params.size k) (Params.gender k)
        (Params.age k) (Params.coat k) (Params.status k) (Params.location k)
        (Params.distance k) (Params.sort k) (Params.results_per_page k);
  (* {key: val for key, val in args.items() if val is not None} *)
  mret (omap id (args k)).

End Assembler.

Import Assembler.


(* ===================================================================== *)
(** * The client: [Petfinder.animals] and [Petfinder.organizations] *)
(* ===================================================================== *)

Module Http.

(** [requests.get(url, headers=..., params=...)] *)
Record request := {
  url : string;
  headers : list (string * string);
  params : option (gmap string pyval)
}.

(** The JSON bodies the two endpoints answer with: [{'animal': r}] (or
    [{'organization': r}]) for a lookup by identifier, and
    [{'animals': items, 'pagination': {'total_pages': n}}] (or
    [{'organizations': ...}]) for a search. *)
Inductive response (record : Type) :=
| Entity (r : record)
| Page (items : list record) (total_pages : Z).
Arguments Entity {record} r.
Arguments Page {record} items total_pages.

(** What ends up under the key ['animals'] / ['organizations'] of the
    returned dict: one record, or a list of records. *)
Inductive payload (record : Type) :=
| One (r : record)
| Many (l : list record).
Arguments One {record} r.
Arguments Many {record} l.

(** Everything outside the program: the records the API serves, how it
    answers a request ([None]: the transport raises), and pandas. *)
Class Remote := {
  record : Type;
  frame : Type;
  server : request → option (response record);
  json_normalize : payload record → frame
}.

(** The requests issued and the lines printed so far. *)
Record world := { requests : list request; stdout : list string }.

Definition M (A : Type) : Type := world → result A * world.

#[export] Instance M_ret : MRet M := λ A a w, (Ok a, w).
#[export] Instance M_bind : MBind M := λ A B f m w,
  match m w with
  | (Ok a, w') => f a w'
  | (Raise e, w') => (Raise e, w')
  end.

Definition lift {A} (r : result A) : M A := λ w, (r, w).

Definition requests_get `{Remote} (u : string) (h : list (string * string))
    (p : option (gmap string pyval)) : M (response record) :=
  λ w, let req := {| url := u; headers := h; params := p |} in
       (match server req with
        | Some r => Ok r
        | None => Raise RequestException
        end,
        {| requests := requests w ++ [req]; stdout := stdout w |}).

Definition print (line : string) : M unit :=
  λ w, (Ok tt, {| requests := requests w; stdout := stdout w ++ [line] |}).

(** [r.json()[key]] for the singular key. *)
Definition json_entity `{Remote} (key : string) (r : response record) : result record :=
  match r with
  | Entity x => Ok x
  | Page _ _ => Raise (KeyError key)
  end.

(** [r.json()[key]] for the plural key. *)
Definition json_items `{Remote} (key : string) (r : response record) : result (list record) :=
  match r with
  | Page items _ => Ok items
  | Entity _ => Raise (KeyError key)
  end.

(** [r.json()['pagination']['total_pages']] *)
Definition json_total_pages `{Remote} (r : response record) : result Z :=
  match r with
  | Page _ n => Ok n
  | Entity _ => Raise (KeyError "pagination")
  end.

(** [for x in xs: body], threading the variables the body assigns. *)
Fixpoint for_each {A S : Type} (xs : list A) (body : S → A → M S) (s : S) : M S :=
  match xs with
  | [] => mret s
  | x :: xs' => s' ← body s x; for_each xs' body s'
  end.

End Http.

Import Http.

(** An identifier: an [int] for an animal, a [str] for an organization. *)
Inductive ident :=
| IdInt (z : Z)
| IdStr (s : string).

(** [animal_id] / [organization_id]: one identifier, or a tuple or list. *)
Inductive ident_arg :=
| OneId (i : ident)
| ManyIds (l : list ident).

Module Animals.
Record kwargs := {
  animal_id : option ident_arg;
  animal_type : option string;
  breed : option pyval;
  size : option multi;
  gender : option multi;
  age : option multi;
  color : option pyval;
  coat : option multi;
  status : option string;
  name : option pyval;
  organization_id : option pyval;
  location : option string;
  distance : option Z;
  sort : option string;
  pages : option Z;
  results_per_page : option Z;
  return_df : bool
}.

Definition defaults : kwargs :=
  {| animal_id := None; animal_type := None; breed := None; size := None;
     gender := None; age := None; color := None; coat := None; status := None;
     name := None; organization_id := None; location := None; distance := None;
     sort := None; pages := None; results_per_page := Some 20; return_df := false |}.
End Animals.

Module Organizations.
Record kwargs := {
  organization_id : option ident_arg;
  name : option pyval;
  location : option string;
  distance : option Z;
  state : option pyval;
  country : option pyval;
  query : option pyval;
  sort : option string;
  results_per_page : option Z;
  pages : option Z;
  return_df : bool
}.

Definition defaults : kwargs :=
  {| organization_id := None; name := None; location := None; distance := None;
     state := None; country := None; query := None; sort := None;
     results_per_page := Some 20; pages := None; return_df := false |}.
End Organizations.

Module Client.

(** The attributes [__init__] sets: [host] is always
    ['http://api.petfinder.com/v2/'], [auth] the bearer token. *)
Record Petfinder := {
  key : string;
  secret : string;
  host : string;
  auth : string
}.

Definition __init__ (key secret token : string) : Petfinder :=
  {| key := key; secret := secret; host := "http://api.petfinder.com/v2/"; auth := token |}.

(** [urljoin(base, rel)] for a base that ends in ['/'] and a relative path. *)
Definition urljoin (base rel : string) : string := base +:+ rel.

(** [str(x)] for an identifier. *)
Definition str_ident (x : ident) : string :=
  match x with
  | IdInt z => pretty z
  | IdStr s => s
  end.

(** [urljoin(self.host, 'animals/{id}').format(id=x)]: the only replacement
    field is the trailing [{id}]. *)
Definition entity_url (self : Petfinder) (path : string) (x : ident) : string :=
  urljoin (host self) path +:+ str_ident x.

(** [{'Authorization': 'Bearer ' + self.auth}] *)
Definition authorization (self : Petfinder) : list (string * string) :=
  [("Authorization", "Bearer " +:+ auth self)].

(** The returned value: the dict [{key: ...}], or a DataFrame. *)
Inductive retval `{Remote} :=
| Dict (key : string) (v : payload record)
| DataFrame (f : frame).

Definition notice (max_pages : Z) : string :=
  "pages parameter exceeded maximum number of available pages available from the Petfinder API. As "
  +:+ "a result, the maximum number of pages " +:+ pretty max_pages +:+ " was returned".

(** The branch [if animal_id is not None] (api.py 334-356, 450-472). *)
Definition lookup `{Remote} (self : Petfinder) (path singular : string)
    (animal_id : ident_arg) : M (payload record) :=
  match animal_id with
  | ManyIds ids =>
      animals ← for_each ids
        (λ animals ani_id,
           r ← requests_get (entity_url self path ani_id) (authorization self) None;
           x ← lift (json_entity singular r);
           mret (animals ++ [x]))
        [];
      mret (Many animals)
  | OneId x =>
      r ← requests_get (entity_url self path x) (authorization self) None;
      x ← lift (json_entity singular r);
      mret (One x)
  end.

(** The branch after [_parameters] (api.py 367-405, 482-521). It yields
    the records, [max_page_warning] and [max_pages] ([max_pages] is unbound
    in the source when [pages is None], and read only under the warning). *)
Definition search `{Remote} (self : Petfinder) (path plural : string)
    (params : gmap string pyval) (pages : option Z) : M (payload record * bool * Z) :=
  let url := urljoin (host self) path in
  match pages with
  | None =>
      r ← requests_get url (authorization self) (Some params);
      animals ← lift (json_items plural r);
      mret (Many animals, false, 0)
  | Some pages =>
      let pages := pages + 1 in
      let params := <["page" := PInt 1]> params in
      r ← requests_get url (authorization self) (Some params);
      animals ← lift (json_items plural r);
      max_pages ← lift (json_total_pages r);
      let '(pages, max_page_warning) :=
        if max_pages <? pages then (max_pages, true) else (pages, false) in
      '(animals, params) ← for_each (range 2 pages)
        (λ '(animals, params) page,
           let params := <["page" := PInt page]> params in
           r ← requests_get url (authorization self) (Some params);
           items ← lift (json_items plural r);
           mret (animals ++ items, params))
        (animals, params);
      mret (Many animals, max_page_warning, max_pages)
  end.

(** The lines after the branches (api.py 407-418, 523-534). *)
Definition finish `{Remote} (key : string) (animals : payload record)
    (return_df max_page_warning : bool) (max_pages : Z) : M retval :=
  let result := Dict key animals in
  let result := if return_df then DataFrame (json_normalize animals) else result in
  _ ← (if max_page_warning then print (notice max_pages) else mret tt);
  mret result.

Definition animals `{SetOrder} `{Remote} (self : Petfinder) (a : Animals.kwargs) : M retval :=
  '(animals, max_page_warning, max_pages) ←
    match Animals.animal_id a with
    | Some animal_id =>
        animals ← lookup self "animals/" "animal" animal_id;
        mret (animals, false, 0)
    | None =>
        params ← lift (_parameters
          {| Params.animal := None;
             Params.breed := Animals.breed a;
             Params.size := Animals.size a;
             Params.gender := Animals.gender a;
             Params.color := Animals.color a;
             Params.coat := Animals.coat a;
             Params.animal_type := Animals.animal_type a;
             Params.location := Animals.location a;
             Params.distance := Animals.distance a;
             Params.state := None;
             Params.country := None;
             Params.query := None;
             Params.sort := Animals.sort a;
             Params.name := Animals.name a;
             Params.age := Animals.age a;
             Params.animal_id := None;
             Params.organization_id := Animals.organization_id a;
             Params.status := Animals.status a;
             Params.results_per_page := Animals.results_per_page a;
             Params.page := None |});
        search self "animals/" "animals" params (Animals.pages a)
    end;
  finish "animals" animals (Animals.return_df a) max_page_warning max_pages.

Definition organizations `{SetOrder} `{Remote} (self : Petfinder) (a : Organizations.kwargs)
    : M retval :=
  '(organizations, max_page_warning, max_pages) ←
    match Organizations.organization_id a with
    | Some organization_id =>
        organizations ← lookup self "organizations/" "organization" organization_id;
        mret (organizations, false, 0)
    | None =>
        params ← lift (_parameters
          {| Params.animal := None;
             Params.breed := None;
             Params.size := None;
             Params.gender := None;
             Params.color := None;
             Params.coat := None;
             Params.animal_type := None;
             Params.location := Organizations.location a;
             Params.distance := Organizations.distance a;
             Params.state := Organizations.state a;
             Params.country := Organizations.country a;
             Params.query := Organizations.query a;
             Params.sort := Organizations.sort a;
             Params.name := Organizations.name a;
             Params.age := None;
             Params.animal_id := None;
             Params.organization_id := None;
             Params.status := None;
             Params.results_per_page := Organizations.results_per_page a;
             Params.page := None |});
        search self "organizations/" "organizations" params (Organizations.pages a)
    end;
  finish "organizations" organizations (Organizations.return_df a) max_page_warning max_pages.

End Client.

Import Client.

(* ===================================================================== *)
(** * The validation rules as the specification words them *)
(* ===================================================================== *)

(** The ten arguments of [_check_parameters], as one value. *)
Module Filters.
Record t := {
  animal_types : option string;
  size : option multi;
  gender : option multi;
  age : option multi;
  coat : option multi;
  status : option string;
  location : option string;
  distance : option Z;
  sort : option string;
  limit : option Z
}.

Definition none : t :=
  {| animal_types := None; size := None; gender := None; age := None; coat := None;
     status := None; location := None; distance := None; sort := None; limit := None |}.

Definition check `{SetOrder} (f : t) : result unit :=
  _check_parameters (animal_types f) (size f) (gender f) (age f) (coat f)
    (status f) (location f) (distance f) (sort f) (limit f).

Definition errors `{SetOrder} (f : t) : list (string * string) :=
  incorrect_values (animal_types f) (size f) (gender f) (age f) (coat f)
    (status f) (location f) (distance f) (sort f) (limit f).
End Filters.

Module Rules.

Inductive dimension :=
| AnimalType | Size | Gender | Age | Coat | Status | Sort | Location | Distance | Limit.

(** The order in which the dimensions are checked. *)
Definition check_order : list dimension :=
  [AnimalType; Size; Gender; Age; Coat; Status; Sort; Location; Distance; Limit].

Inductive rule :=
| OneOf (accepted : list string)
| SomeOf (accepted : list string)
| AtMost (bound : Z).

(** The table of accepted values and bounds. *)
Definition rule_of (d : dimension) : rule :=
  match d with
  | AnimalType =>
      OneOf ["dog"; "cat"; "rabbit"; "small-furry"; "horse"; "bird"; "scales-fins-other"; "barnyard"]
  | Size => SomeOf ["small"; "medium"; "large"; "xlarge"]
  | Gender => SomeOf ["male"; "female"; "unknown"]
  | Age => SomeOf ["baby"; "young"; "adult"; "senior"]
  | Coat => SomeOf ["short"; "medium"; "long"; "wire"; "hairless"; "curly"]
  | Status => OneOf ["adoptable"; "adopted"; "found"]
  | Sort => OneOf ["recent"; "-recent"; "distance"; "-distance"]
  | Location => OneOf ["city,state"; "latitude,longitude"; "postal code"]
  | Distance => AtMost 500
  | Limit => AtMost 100
  end.

Definition enumerated (d : dimension) : bool :=
  match rule_of d with
  | AtMost _ => false
  | _ => true
  end.

Definition accepted (d : dimension) : list string :=
  match rule_of d with
  | OneOf acc | SomeOf acc => acc
  | AtMost _ => []
  end.

Inductive supplied :=
| Single (s : string)
| Several (l : list string)
| Number (z : Z).

(** A single string counts as a one-element collection. *)
Definition elements (x : multi) : list string :=
  match x with
  | Scalar s => [s]
  | Collection l => l
  end.

Definition value_of (f : Filters.t) (d : dimension) : option supplied :=
  match d with
  | AnimalType => Single <$> Filters.animal_types f
  | Size => Several ∘ elements <$> Filters.size f
  | Gender => Several ∘ elements <$> Filters.gender f
  | Age => Several ∘ elements <$> Filters.age f
  | Coat => Several ∘ elements <$> Filters.coat f
  | Status => Single <$> Filters.status f
  | Sort => Single <$> Filters.sort f
  | Location => Single <$> Filters.location f
  | Distance => Number <$> Filters.distance f
  | Limit => Number <$> Filters.limit f
  end.

(** The values of a dimension that its rule does not accept (a number is
    listed in decimal). *)
Definition offending (f : Filters.t) (d : dimension) : list string :=
  match rule_of d, value_of f d with
  | OneOf acc, Some (Single s) => if bool_decide (s ∈ acc) then [] else [s]
  | SomeOf acc, Some (Several l) => list_difference (remove_dups l) acc
  | AtMost b, Some (Number z) => if b <? z then [pretty z] else []
  | _, _ => []
  end.

Definition violated (f : Filters.t) (d : dimension) : bool :=
  bool_decide (offending f d ≠ []).

(** The text the source builds for a dimension. *)
Definition dimension_message `{SetOrder} (f : Filters.t) (d : dimension) : string :=
  match d, value_of f d with
  | AnimalType, Some (Single s) => animal_types_message s
  | Size, Some (Several l) => size_message (difference_iter l _sizes)
  | Gender, Some (Several l) => gender_message (difference_iter l _genders)
  | Age, Some (Several l) => age_message (difference_iter l _ages)
  | Coat, Some (Several l) => coat_message (difference_iter l _coats)
  | Status, Some (Single s) => status_message s
  | Sort, Some (Single s) => sort_message s
  | Location, Some (Single s) => location_message s
  | Distance, _ => distance_message
  | Limit, _ => limit_message
  | _, _ => ""
  end.

(** The key of a dimension in the dict [incorrect_values]. *)
Definition dimension_key (d : dimension) : string :=
  match d with
  | AnimalType => "animal_types"
  | Size => "size"
  | Gender => "gender"
  | Age => "age"
  | Coat => "coat"
  | Status => "status"
  | Sort => "sort"
  | Location => "location"
  | Distance => "distance"
  | Limit => "limit"
  end.

(** How an offending value shows in a message: the value itself where the
    source formats a [str], its [repr] where it formats a set. *)
Definition shown (d : dimension) (v : string) : string :=
  match rule_of d with
  | SomeOf _ => repr_str v
  | _ => v
  end.

(** The aggregated message: every violated dimension's text followed by a
    newline, in check order. *)
Definition aggregated `{SetOrder} (f : Filters.t) : string :=
  foldr (λ d rest, dimension_message f d +:+ newline +:+ rest) ""
    (List.filter (violated f) check_order).

Definition substring_of (needle hay : string) : Prop :=
  ∃ pre post, hay = pre +:+ needle +:+ post.

Fixpoint occurs_in (needle hay : string) : bool :=
  String.prefix needle hay ||
  match hay with
  | EmptyString => false
  | String _ hay' => occurs_in needle hay'
  end.

End Rules.

Import Rules.

(* ===================================================================== *)
(** * The ten checks of [_check_parameters], one by one *)
(* ===================================================================== *)

(** The three shapes the checks of [_check_parameters] take; the body of
    [incorrect_values] is their composition (lemma [incorrect_values_unfold]). *)
Definition check_single (acc : list string) (key : string) (msg : string → string)
    (x : option string) (iv : list (string * string)) : list (string * string) :=
  match x with
  | Some t => if negb (contains acc t) then dict_set key (msg t) iv else iv
  | None => iv
  end.

Definition check_several `{SetOrder} (acc : list string) (key : string) (msg : list string → string)
    (x : option multi) (iv : list (string * string)) : list (string * string) :=
  match x with
  | Some x => if (0 <? length (difference_iter (as_list x) acc))%nat
              then dict_set key (msg (difference_iter (as_list x) acc)) iv else iv
  | None => iv
  end.

Definition check_number (bound : Z) (key msg : string)
    (x : option Z) (iv : list (string * string)) : list (string * string) :=
  match x with
  | Some z => if bound <? z then dict_set key msg iv else iv
  | None => iv
  end.

(** The entries of [incorrect_values] once the dimensions [ds] are checked. *)
Definition entries `{SetOrder} (f : Filters.t) (ds : list dimension) : list (string * string) :=
  map (λ d, (dimension_key d, dimension_message f d)) (List.filter (violated f) ds).

(* ===================================================================== *)
(** * Requests, worlds and loop bodies named for the statements *)
(* ===================================================================== *)

(** The request a lookup by identifier issues. *)
Definition entity_request (self : Petfinder) (path : string) (x : ident) : request :=
  {| url := entity_url self path x; headers := authorization self; params := None |}.

(** The request for page [p] of a search with the assembled query [q]. *)
Definition page_request (self : Petfinder) (path : string) (q : gmap string pyval) (p : Z) : request :=
  {| url := urljoin (host self) path; headers := authorization self;
     params := Some (<["page" := PInt p]> q) |}.

(** The world after the requests [rs] and the lines [ls]. *)
Definition after (w : world) (rs : list request) (ls : list string) : world :=
  {| requests := requests w ++ rs; stdout := stdout w ++ ls |}.

(** Is the outcome a [ValueError]? *)
Definition is_validation_error {A} (r : result A) : bool :=
  match r with
  | Raise (ValueError _) => true
  | _ => false
  end.

(** The body of the loop over the identifiers. *)
Definition lookup_body `{Remote} (self : Petfinder) (path singular : string)
    (animals : list record) (ani_id : ident) : M (list record) :=
  r ← requests_get (entity_url self path ani_id) (authorization self) None;
  x ← lift (json_entity singular r);
  mret (animals ++ [x]).

(** The filters [animals] hands to [_check_parameters] (through
    [_parameters]). *)
Definition animals_filters (a : Animals.kwargs) : Filters.t :=
  {| Filters.animal_types := Animals.animal_type a;
     Filters.size := Animals.size a;
     Filters.gender := Animals.gender a;
     Filters.age := Animals.age a;
     Filters.coat := Animals.coat a;
     Filters.status := Animals.status a;
     Filters.location := Animals.location a;
     Filters.distance := Animals.distance a;
     Filters.sort := Animals.sort a;
     Filters.limit := Animals.results_per_page a |}.

(** The filters [organizations] hands to [_check_parameters]. *)
Definition organizations_filters (a : Organizations.kwargs) : Filters.t :=
  {| Filters.animal_types := None;
     Filters.size := None;
     Filters.gender := None;
     Filters.age := None;
     Filters.coat := None;
     Filters.status := None;
     Filters.location := Organizations.location a;
     Filters.distance := Organizations.distance a;
     Filters.sort := Organizations.sort a;
     Filters.limit := Organizations.results_per_page a |}.

(** What [finish] returns for the records [v]. *)
Definition returned `{Remote} (key : string) (return_df : bool) (v : payload record) : retval :=
  if return_df then DataFrame (json_normalize v) else Dict key v.

(** The body of the loop over the pages; it threads [animals] and [params]. *)
Definition search_body `{Remote} (self : Petfinder) (path plural : string)
    : list record * gmap string pyval → Z → M (list record * gmap string pyval) :=
  λ '(animals, params) page,
    let params := <["page" := PInt page]> params in
    r ← requests_get (urljoin (host self) path) (authorization self) (Some params);
    items ← lift (json_items plural r);
    mret (animals ++ items, params).

(** The page bound the loop runs to, for [pages=n] and [total_pages=m]. *)
Definition page_bound (n m : Z) : Z := if m <? n + 1 then m else n + 1.

(** The pages [search] fetches, for [pages=n] and [total_pages=m]. *)
Definition pages_fetched (n m : Z) : list Z := 1 :: range 2 (page_bound n m).

(** The keyword arguments [animals] passes to [_parameters]. *)
Definition animals_query (a : Animals.kwargs) : Params.kwargs :=
  {| Params.animal := None;
     Params.breed := Animals.breed a;
     Params.size := Animals.size a;
     Params.gender := Animals.gender a;
     Params.color := Animals.color a;
     Params.coat := Animals.coat a;
     Params.animal_type := Animals.animal_type a;
     Params.location := Animals.location a;
     Params.distance := Animals.distance a;
     Params.state := None;
     Params.country := None;
     Params.query := None;
     Params.sort := Animals.sort a;
     Params.name := Animals.name a;
     Params.age := Animals.age a;
     Params.animal_id := None;
     Params.organization_id := Animals.organization_id a;
     Params.status := Animals.status a;
     Params.results_per_page := Animals.results_per_page a;
     Params.page := None |}.

(** The keyword arguments [organizations] passes to [_parameters]. *)
Definition organizations_query (a : Organizations.kwargs) : Params.kwargs :=
  {| Params.animal := None;
     Params.breed := None;
     Params.size := None;
     Params.gender := None;
     Params.color := None;
     Params.coat := None;
     Params.animal_type := None;
     Params.location := Organizations.location a;
     Params.distance := Organizations.distance a;
     Params.state := Organizations.state a;
     Params.country := Organizations.country a;
     Params.query := Organizations.query a;
     Params.sort := Organizations.sort a;
     Params.name := Organizations.name a;
     Params.age := None;
     Params.animal_id := None;
     Params.organization_id := None;
     Params.status := None;
     Params.results_per_page := Organizations.results_per_page a;
     Params.page := None |}.

(** The world after [finish]: the notice is printed under the warning. *)
Definition noticed (warning : bool) (max_pages : Z) (w : world) : world :=
  if warning then after w [] [notice max_pages] else w.

(** The filters [_parameters] hands to [_check_parameters]. *)
Definition params_filters (k : Params.kwargs) : Filters.t :=
  {| Filters.animal_types := Params.animal_type k;
     Filters.size := Params.size k;
     Filters.gender := Params.gender k;
     Filters.age := Params.age k;
     Filters.coat := Params.coat k;
     Filters.status := Params.status k;
     Filters.location := Params.location k;
     Filters.distance := Params.distance k;
     Filters.sort := Params.sort k;
     Filters.limit := Params.results_per_page k |}.

(** The keys [_parameters] can return. *)
Definition wire_keys : list string :=
  ["animal"; "breed"; "size"; "gender"; "age"; "color"; "coat"; "animal_type"; "location";
   "distance"; "state"; "country"; "query"; "sort"; "name"; "animal_id"; "organization_id";
   "status"; "limit"; "page"].

(* ===================================================================== *)
(** * A concrete server and concrete calls *)
(* ===================================================================== *)

(** A server with two pages of results; a request for any other page fails
    in the transport. A lookup by identifier answers with the url asked. *)
Definition two_pages : Remote :=
  {| record := string;
     frame := list string;
     json_normalize := λ v, match v with One r => [r] | Many l => l end;
     server := λ req,
       match params req with
       | None => Some (Entity ("record at " +:+ url req))
       | Some q =>
           match q !! "page" with
           | None | Some (PInt 1) => Some (Page ["rex"; "tom"] 2)
           | Some (PInt 2) => Some (Page ["ada"] 2)
           | _ => None
           end
       end |}.

Definition client : Petfinder := __init__ "key" "secret" "token".

Definition fresh : world := {| requests := []; stdout := [] |}.

(** [animals(pages=n)] *)
Definition animals_pages (n : Z) : Animals.kwargs :=
  {| Animals.animal_id := None; Animals.animal_type := None; Animals.breed := None;
     Animals.size := None; Animals.gender := None; Animals.age := None;
     Animals.color := None; Animals.coat := None; Animals.status := None;
     Animals.name := None; Animals.organization_id := None; Animals.location := None;
     Animals.distance := None; Animals.sort := None; Animals.pages := Some n;
     Animals.results_per_page := Some 20; Animals.return_df := false |}.

(** [organizations(pages=n)] *)
Definition organizations_pages (n : Z) : Organizations.kwargs :=
  {| Organizations.organization_id := None; Organizations.name := None;
     Organizations.location := None; Organizations.distance := None;
     Organizations.state := None; Organizations.country := None;
     Organizations.query := None; Organizations.sort := None;
     Organizations.results_per_page := Some 20; Organizations.pages := Some n;
     Organizations.return_df := false |}.

(** [_parameters(results_per_page=50)], everything else unset. *)
Definition fifty_per_page : Params.kwargs :=
  {| Params.animal := None; Params.breed := None; Params.size := None;
     Params.gender := None; Params.color := None; Params.coat := None;
     Params.animal_type := None; Params.location := None; Params.distance := None;
     Params.state := None; Params.country := None; Params.query := None;
     Params.sort := None; Params.name := None; Params.age := None;
     Params.animal_id := None; Params.organization_id := None; Params.status := None;
     Params.results_per_page := Some 50; Params.page := None |}.

(** [animals(animal_id=x, size='huge', distance=501)]: an identifier
    together with filters that do not pass validation. *)
Definition animals_by (x : ident_arg) : Animals.kwargs :=
  {| Animals.animal_id := Some x; Animals.animal_type := None; Animals.breed := None;
     Animals.size := Some (Scalar "huge"); Animals.gender := None; Animals.age := None;
     Animals.color := None; Animals.coat := None; Animals.status := None;
     Animals.name := None; Animals.organization_id := None; Animals.location := None;
     Animals.distance := Some 501; Animals.sort := None; Animals.pages := Some 3;
     Animals.results_per_page := Some 20; Animals.return_df := false |}.

(** [organizations(organization_id=x, distance=501)] *)
Definition organizations_by (x : ident_arg) : Organizations.kwargs :=
  {| Organizations.organization_id := Some x; Organizations.name := None;
     Organizations.location := None; Organizations.distance := Some 501;
     Organizations.state := None; Organizations.country := None;
     Organizations.query := None; Organizations.sort := None;
     Organizations.results_per_page := Some 20; Organizations.pages := Some 3;
     Organizations.return_df := false |}.

(** [animals(size='huge', pages=3)] *)
Definition animals_huge : Animals.kwargs :=
  {| Animals.animal_id := None; Animals.animal_type := None; Animals.breed := None;
     Animals.size := Some (Scalar "huge"); Animals.gender := None; Animals.age := None;
     Animals.color := None; Animals.coat := None; Animals.status := None;
     Animals.name := None; Animals.organization_id := None; Animals.location := None;
     Animals.distance := None; Animals.sort := None; Animals.pages := Some 3;
     Animals.results_per_page := Some 20; Animals.return_df := false |}.

(** [organizations(distance=501)] *)
Definition organizations_far : Organizations.kwargs :=
  {| Organizations.organization_id := None; Organizations.name := None;
     Organizations.location := None; Organizations.distance := Some 501;
     Organizations.state := None; Organizations.country := None;
     Organizations.query := None; Organizations.sort := None;
     Organizations.results_per_page := Some 20; Organizations.pages := None;
     Organizations.return_df := false |}.

(** [_check_parameters(size=['small', 'huge'], distance=501)] *)
Definition huge_and_far : Filters.t :=
  {| Filters.animal_types := None; Filters.size := Some (Collection ["small"; "huge"]);
     Filters.gender := None; Filters.age := None; Filters.coat := None;
     Filters.status := None; Filters.location := None; Filters.distance := Some 501;
     Filters.sort := None; Filters.limit := None |}.

(** [_check_parameters(distance=501)] *)
Definition far : Filters.t :=
  {| Filters.animal_types := None; Filters.size := None;
     Filters.gender := None; Filters.age := None; Filters.coat := None;
     Filters.status := None; Filters.location := None; Filters.distance := Some 501;
     Filters.sort := None; Filters.limit := None |}.

#[export] Instance dimension_eq_dec : EqDecision dimension.
Proof. solve_decision. Defined.

(** The filters [f] with [distance] replaced. *)
Definition with_distance (distance : option Z) (f : Filters.t) : Filters.t :=
  {| Filters.animal_types := Filters.animal_types f; Filters.size := Filters.size f;
     Filters.gender := Filters.gender f; Filters.age := Filters.age f;
     Filters.coat := Filters.coat f; Filters.status := Filters.status f;
     Filters.location := Filters.location f; Filters.distance := distance;
     Filters.sort := Filters.sort f; Filters.limit := Filters.limit f |}.

(** The filters [f] with [limit] replaced. *)
Definition with_limit (limit : option Z) (f : Filters.t) : Filters.t :=
  {| Filters.animal_types := Filters.animal_types f; Filters.size := Filters.size f;
     Filters.gender := Filters.gender f; Filters.age := Filters.age f;
     Filters.coat := Filters.coat f; Filters.status := Filters.status f;
     Filters.location := Filters.location f; Filters.distance := Filters.distance f;
     Filters.sort := Filters.sort f; Filters.limit := limit |}.

(** The filters [f] with [location] replaced. *)
Definition with_location (location : option string) (f : Filters.t) : Filters.t :=
  {| Filters.animal_types := Filters.animal_types f; Filters.size := Filters.size f;
     Filters.gender := Filters.gender f; Filters.age := Filters.age f;
     Filters.coat := Filters.coat f; Filters.status := Filters.status f;
     Filters.location := location; Filters.distance := Filters.distance f;
     Filters.sort := Filters.sort f; Filters.limit := Filters.limit f |}.

(** [_check_parameters(size='small', status='adoptable')] *)
Definition small_adoptable : Filters.t :=
  {| Filters.animal_types := None; Filters.size := Some (Scalar "small");
     Filters.gender := None; Filters.age := None; Filters.coat := None;
     Filters.status := Some "adoptable"; Filters.location := None; Filters.distance := None;
     Filters.sort := None; Filters.limit := None |}.

(** [animals(pages=None)] *)
Definition animals_first_page : Animals.kwargs :=
  {| Animals.animal_id := None; Animals.animal_type := None; Animals.breed := None;
     Animals.size := None; Animals.gender := None; Animals.age := None;
     Animals.color := None; Animals.coat := None; Animals.status := None;
     Animals.name := None; Animals.organization_id := None; Animals.location := None;
     Animals.distance := None; Animals.sort := None; Animals.pages := None;
     Animals.results_per_page := Some 20; Animals.return_df := false |}.

(** The request of a search without [pages]: the query as assembled. *)
Definition query_request (self : Petfinder) (path : string) (q : gmap string pyval) : request :=
  {| url := urljoin (host self) path; headers := authorization self; params := Some q |}.

(** The items of the pages of [two_pages]. *)
Definition two_pages_items (p : Z) : list string :=
  if p =? 1 then ["rex"; "tom"] else ["ada"].

(** The query [animals] and [organizations] assemble from their defaults. *)
Definition default_query : gmap string pyval := {["limit" := PInt 20]}.

(** A server that has three pages and drops the request for page 2. *)
Definition drops_page_2 : Remote :=
  {| record := string;
     frame := list string;
     json_normalize := λ v, match v with One r => [r] | Many l => l end;
     server := λ req,
       match params req with
       | None => None
       | Some q =>
           match q !! "page" with
           | Some (PInt 1) => Some (Page ["rex"; "tom"] 3)
           | Some (PInt 3) => Some (Page ["ada"] 3)
           | _ => None
           end
       end |}.

(** A server that knows the animals 7 and 9 only. *)
Definition two_animals : Remote :=
  {| record := string;
     frame := list string;
     json_normalize := λ v, match v with One r => [r] | Many l => l end;
     server := λ req,
       if bool_decide (url req = "http://api.petfinder.com/v2/animals/7") then Some (Entity "rex")
       else if bool_decide (url req = "http://api.petfinder.com/v2/animals/9") then Some (Entity "tom")
       else None |}.

(** [animals(animal_id=xs)] *)
Definition animals_ids (xs : list ident) : Animals.kwargs :=
  {| Animals.animal_id := Some (ManyIds xs); Animals.animal_type := None;
     Animals.breed := None; Animals.size := None; Animals.gender := None;
     Animals.age := None; Animals.color := None; Animals.coat := None;
     Animals.status := None; Animals.name := None; Animals.organization_id := None;
     Animals.location := None; Animals.distance := None; Animals.sort := None;
     Animals.pages := None; Animals.results_per_page := Some 20;
     Animals.return_df := false |}.

(** A request to an address under [self.host] that carries the header
    [{'Authorization': 'Bearer ' + self.auth}] and no other. *)
Definition authorized (self : Petfinder) (r : request) : bool :=
  bool_decide (headers r = authorization self) && String.prefix (host self) (url r).

(** The computation [m] only adds requests and printed lines to the world,
    and every request it adds satisfies [P]. *)
Definition grows {A} (P : request → Prop) (m : M A) : Prop :=
  ∀ w, ∃ rs ls, (m w).2 = after w rs ls ∧ Forall P rs.

(** [animals(..., return_df=df)], the other arguments as in [a]. *)
Definition animals_return_df (df : bool) (a : Animals.kwargs) : Animals.kwargs :=
  {| Animals.animal_id := Animals.animal_id a; Animals.animal_type := Animals.animal_type a;
     Animals.breed := Animals.breed a; Animals.size := Animals.size a;
     Animals.gender := Animals.gender a; Animals.age := Animals.age a;
     Animals.color := Animals.color a; Animals.coat := Animals.coat a;
     Animals.status := Animals.status a; Animals.name := Animals.name a;
     Animals.organization_id := Animals.organization_id a;
     Animals.location := Animals.location a; Animals.distance := Animals.distance a;
     Animals.sort := Animals.sort a; Animals.pages := Animals.pages a;
     Animals.results_per_page := Animals.results_per_page a;
     Animals.return_df := df |}.

(** [organizations(..., return_df=df)], the other arguments as in [a]. *)
Definition organizations_return_df (df : bool) (a : Organizations.kwargs)
    : Organizations.kwargs :=
  {| Organizations.organization_id := Organizations.organization_id a;
     Organizations.name := Organizations.name a;
     Organizations.location := Organizations.location a;
     Organizations.distance := Organizations.distance a;
     Organizations.state := Organizations.state a;
     Organizations.country := Organizations.country a;
     Organizations.query := Organizations.query a;
     Organizations.sort := Organizations.sort a;
     Organizations.results_per_page := Organizations.results_per_page a;
     Organizations.pages := Organizations.pages a;
     Organizations.return_df := df |}.

(** The outcome [r] with [f] applied to the value, if there is one. *)
Definition result_map {A B} (f : A → B) (r : result A) : result B :=
  match r with
  | Ok a => Ok (f a)
  | Raise e => Raise e
  end.

(** An interpreter whose sets iterate in the reverse of first-insertion
    order. *)
Program Definition reverse_order : SetOrder :=
  {| difference_iter xs ys := reverse (list_difference (remove_dups xs) ys) |}.
Next Obligation. intros xs ys. apply reverse_Permutation. Qed.

(** The keys of [incorrect_values], in insertion order. *)
Definition error_keys `{SetOrder} (f : Filters.t) : list string := (Filters.errors f).*1.

(** [size=['huge', 'tiny']] *)
Definition huge_and_tiny : Filters.t :=
  {| Filters.animal_types := None; Filters.size := Some (Collection ["huge"; "tiny"]);
     Filters.gender := None; Filters.age := None; Filters.coat := None;
     Filters.status := None; Filters.location := None; Filters.distance := None;
     Filters.sort := None; Filters.limit := None |}.

(** The keys [animals] can send: those of the arguments it hands to
    [_parameters]. *)
Definition animals_keys : list string :=
  ["animal_type"; "breed"; "size"; "gender"; "age"; "color"; "coat"; "status"; "name";
   "organization_id"; "location"; "distance"; "sort"; "limit"].

(** The keys [organizations] can send. *)
Definition organizations_keys : list string :=
  ["name"; "location"; "distance"; "state"; "country"; "query"; "sort"; "limit"].

(** [animals(animal_type='dog', size='small', results_per_page=50)] *)
Definition small_dogs : Animals.kwargs :=
  {| Animals.animal_id := None; Animals.animal_type := Some "dog"; Animals.breed := None;
     Animals.size := Some (Scalar "small"); Animals.gender := None; Animals.age := None;
     Animals.color := None; Animals.coat := None; Animals.status := None;
     Animals.name := None; Animals.organization_id := None; Animals.location := None;
     Animals.distance := None; Animals.sort := None; Animals.pages := None;
     Animals.results_per_page := Some 50; Animals.return_df := false |}.

(* ===================================================================== *)
(** * The type endpoints: [Petfinder.animal_types] and [Petfinder.breeds] *)
(* ===================================================================== *)

Module Json.

(** A decoded JSON body, as [r.json()] gives it. A number is kept by its
    literal: the two methods never compute with one. *)
#[warnings="-register-all"] Inductive json :=
| JNull
| JBool (b : bool)
| JNum (literal : string)
| JStr (s : string)
| JList (l : list json)
| JDict (d : list (string * json)).

(** What the two methods can raise: the exceptions of [Py], and those of
    the interpreter when a body has not the shape the code indexes. *)
Inductive error :=
| Builtin (e : exn)
| KeyErrorAt (i : nat)
| TypeError
| IndexError.

Inductive outcome (A : Type) :=
| Done (a : A)
| Fail (e : error).
Arguments Done {A} a.
Arguments Fail {A} e.

#[export] Instance outcome_ret : MRet outcome := λ A a, Done a.
#[export] Instance outcome_bind : MBind outcome := λ A B f m,
  match m with
  | Done a => f a
  | Fail e => Fail e
  end.

(** [for x in xs: body], threading the variables the body assigns, in any
    of the monads at hand. *)
Fixpoint for_in {M : Type → Type} `{!MRet M, !MBind M} {A S : Type}
    (xs : list A) (body : S → A → M S) (s : S) : M S :=
  match xs with
  | [] => mret s
  | x :: xs' => s' ← body s x; for_in xs' body s'
  end.

(** [d[k]] for a [dict] with [str] keys; [None] stands for [KeyError]. *)
Fixpoint dict_get {V : Type} (k : string) (d : list (string * V)) : option V :=
  match d with
  | [] => None
  | (k', v) :: d' => if bool_decide (k' = k) then Some v else dict_get k d'
  end.

(** [v[key]] for a [str] key. *)
Definition getitem (v : json) (key : string) : outcome json :=
  match v with
  | JDict d =>
      match dict_get key d with
      | Some x => Done x
      | None => Fail (Builtin (KeyError key))
      end
  | _ => Fail TypeError
  end.

(** The characters of a [str], each a [str] of length one. *)
Fixpoint chars (s : string) : list string :=
  match s with
  | EmptyString => []
  | String c s' => String c EmptyString :: chars s'
  end.

(** [v[i]] for an [int] index that is not negative. *)
Definition getitem_index (v : json) (i : nat) : outcome json :=
  match v with
  | JList l =>
      match l !! i with
      | Some x => Done x
      | None => Fail IndexError
      end
  | JStr s =>
      match chars s !! i with
      | Some c => Done (JStr c)
      | None => Fail IndexError
      end
  | JDict _ => Fail (KeyErrorAt i)
  | _ => Fail TypeError
  end.

(** [types[t]] for a tuple or list of [str]. *)
Definition index (types : list string) (t : nat) : outcome string :=
  match types !! t with
  | Some x => Done x
  | None => Fail IndexError
  end.

(** The values [for x in v] runs through: the elements of a list, the keys
    of a dict, the characters of a [str]. *)
Definition iterate (v : json) : outcome (list json) :=
  match v with
  | JList l => Done l
  | JDict d => Done (JStr ∘ fst <$> d)
  | JStr s => Done (JStr <$> chars s)
  | _ => Fail TypeError
  end.

End Json.

Import Json.

Module Types.

(** Everything outside the program for the two methods: the decoded body
    the API answers a request with ([None]: the transport raises), and the
    pandas operations [breeds] calls. *)
Class Catalog := {
  body : request → option json;
  table : Type;
  (** [DataFrame()] *)
  DataFrame_ : table;
  (** [df.append(other)] *)
  append : table → table → table;
  (** [json_normalize(data)] *)
  json_normalize_ : json → outcome table;
  (** [df.rename(columns={'_links.type.href': 'breed'}, inplace=True)]
      followed by
      [df['breed'] = df['breed'].str.replace('/v2/types/', '').str.capitalize()] *)
  breed_column : table → outcome table
}.

Definition T (A : Type) : Type := world → outcome A * world.

#[export] Instance T_ret : MRet T := λ A a w, (Done a, w).
#[export] Instance T_bind : MBind T := λ A B f m w,
  match m w with
  | (Done a, w') => f a w'
  | (Fail e, w') => (Fail e, w')
  end.

Definition pure {A} (r : outcome A) : T A := λ w, (r, w).

(** [requests.get(url, headers=...)] followed by the one [r.json()] the
    code applies to the answer. *)
Definition get_json `{Catalog} (u : string) (h : list (string * string)) : T json :=
  λ w, let req := {| url := u; headers := h; params := None |} in
       (match body req with
        | Some v => Done v
        | None => Fail (Builtin RequestException)
        end,
        {| requests := requests w ++ [req]; stdout := stdout w |}).

Definition types_message : string :=
  "animal types must be of the following 'dog', 'cat', 'rabbit', "
  +:+ "'small-furry', 'horse', 'bird', 'scales-fins-other', 'barnyard'".

(** The first lines of both methods (api.py 124-132, 212-220); the tuple
    is the one [_check_parameters] names [_animal_types]. *)
Definition check_types `{SetOrder} (types : option multi) : outcome unit :=
  match types with
  | Some types =>
      let type_check := as_list types in
      let diff := difference_iter type_check _animal_types in
      if (0 <? length diff)%nat
      then Fail (Builtin (ValueError types_message))
      else Done tt
  | None => Done tt
  end.

(** [urljoin(self.host, 'types/{type}'.format(type=t))] *)
Definition type_url (self : Petfinder) (t : string) : string :=
  urljoin (host self) ("types/" +:+ t).

(** [urljoin(self.host, 'types/{type}/breeds'.format(type=t))] *)
Definition breeds_url (self : Petfinder) (t : string) : string :=
  urljoin (host self) ("types/" +:+ t +:+ "/breeds").

Definition animal_types `{SetOrder} `{Catalog} (self : Petfinder) (types : option multi)
    : T json :=
  _ ← pure (check_types types);
  match types with
  | None =>
      get_json (urljoin (host self) "types") (authorization self)
  | Some (Scalar types) =>
      get_json (type_url self types) (authorization self)
  | Some (Collection types) =>
      types_collection ← for_in types
        (λ types_collection type,
           r ← get_json (type_url self type) (authorization self);
           x ← pure (getitem r "type");
           mret (types_collection ++ [x]))
        [];
      mret (JDict [("type", JList types_collection)])
  end.

(** What [breeds] returns: a dict, or a DataFrame. *)
Inductive breeds_result `{Catalog} :=
| Json (v : json)
| Frame (f : table).

(** [result['breeds'][t][types[t]]['breeds']] *)
Definition listed (result : json) (types : list string) (t : nat) : outcome json :=
  a ← getitem result "breeds";
  b ← getitem_index a t;
  type ← index types t;
  c ← getitem b type;
  getitem c "breeds".

(** [json_result['breeds'][type].append(x)] *)
Definition append_under (type : string) (x : json) (d : list (string * list json))
    : outcome (list (string * list json)) :=
  match dict_get type d with
  | Some l => Done (dict_set type (l ++ [x]) d)
  | None => Fail (Builtin (KeyError type))
  end.

(** The dict [{'breeds': d}] for a dict [d] of lists. *)
Definition json_result (d : list (string * list json)) : json :=
  JDict [("breeds", JDict (prod_map id JList <$> d))].

Definition breeds `{SetOrder} `{Catalog} (self : Petfinder) (types : option multi)
    (return_df raw_results : bool) : T breeds_result :=
  _ ← pure (check_types types);
  '(result, types) ←
    match types with
    | Some (Scalar types) =>
        r ← get_json (breeds_url self types) (authorization self);
        mret (r, Scalar types)
    | _ =>
        let types :=
          match types with
          | Some (Collection types) => types
          | _ => ["dog"; "cat"; "rabbit"; "small-furry";
                  "horse"; "bird"; "scales-fins-other"; "barnyard"]
          end in
        breeds ← for_in types
          (λ breeds t,
             r ← get_json (breeds_url self t) (authorization self);
             mret (breeds ++ [JDict [(t, r)]]))
          [];
        mret (JDict [("breeds", JList breeds)], Collection types)
    end;
  if return_df then
    (* raw_results = True: the branch [if not raw_results] below is skipped *)
    df_results ← pure
      match types with
      | Collection types =>
          for_in (seq 0 (length types))
            (λ df_results t,
               x ← listed result types t;
               f ← json_normalize_ x;
               mret (append df_results f))
            DataFrame_
      | Scalar _ =>
          x ← getitem result "breeds";
          f ← json_normalize_ x;
          mret (append DataFrame_ f)
      end;
    df_results ← pure (breed_column df_results);
    mret (Frame df_results)
  else if negb raw_results then
    d ← pure
      match types with
      | Collection types =>
          for_in (seq 0 (length types))
            (λ d t,
               type ← index types t;
               let d := dict_set type [] d in
               x ← listed result types t;
               breeds ← iterate x;
               for_in breeds
                 (λ d breed,
                    type ← index types t;
                    name ← getitem breed "name";
                    append_under type name d)
                 d)
            []
      | Scalar types =>
          let d := dict_set types [] [] in
          x ← getitem result "breeds";
          breeds ← iterate x;
          for_in breeds
            (λ d breed,
               name ← getitem breed "name";
               append_under types name d)
            d
      end;
    mret (Json (json_result d))
  else
    mret (Json result).

End Types.

Import Types.

(** The request for one animal type. *)
Definition type_request (self : Petfinder) (t : string) : request :=
  {| url := type_url self t; headers := authorization self; params := None |}.

(** The request for all the animal types. *)
Definition types_request (self : Petfinder) : request :=
  {| url := urljoin (host self) "types"; headers := authorization self; params := None |}.

(** The request for the breeds of one animal type. *)
Definition breeds_request (self : Petfinder) (t : string) : request :=
  {| url := breeds_url self t; headers := authorization self; params := None |}.

(** The body of the loop of [animal_types]. *)
Definition animal_types_body `{Catalog} (self : Petfinder)
    (types_collection : list json) (type : string) : T (list json) :=
  r ← get_json (type_url self type) (authorization self);
  x ← pure (getitem r "type");
  mret (types_collection ++ [x]).

(** The body of the loop of [breeds] that fetches. *)
Definition breeds_body `{Catalog} (self : Petfinder) (breeds : list json) (t : string)
    : T (list json) :=
  r ← get_json (breeds_url self t) (authorization self);
  mret (breeds ++ [JDict [(t, r)]]).

(** A small catalog: it knows the types dog and cat and their breeds,
    answers with an error body for horse and drops every other request;
    its tables are lists. *)
Definition zoo : Catalog :=
  {| body := λ req,
       if bool_decide (url req = "http://api.petfinder.com/v2/types") then
         Some (JDict [("types", JList [JDict [("name", JStr "Dog")];
                                       JDict [("name", JStr "Cat")]])])
       else if bool_decide (url req = "http://api.petfinder.com/v2/types/dog") then
         Some (JDict [("type", JDict [("name", JStr "Dog")])])
       else if bool_decide (url req = "http://api.petfinder.com/v2/types/cat") then
         Some (JDict [("type", JDict [("name", JStr "Cat")])])
       else if bool_decide (url req = "http://api.petfinder.com/v2/types/dog/breeds") then
         Some (JDict [("breeds", JList [JDict [("name", JStr "Akita")];
                                        JDict [("name", JStr "Beagle")]])])
       else if bool_decide (url req = "http://api.petfinder.com/v2/types/cat/breeds") then
         Some (JDict [("breeds", JList [JDict [("name", JStr "Siamese")]])])
       else if bool_decide (url req = "http://api.petfinder.com/v2/types/horse") then
         Some (JDict [("status", JNum "404")])
       else if bool_decide (url req = "http://api.petfinder.com/v2/types/horse/breeds") then
         Some (JDict [("status", JNum "404")])
       else None;
     table := list json;
     DataFrame_ := [];
     append := app;
     json_normalize_ := iterate;
     breed_column := Done |}.

(** The first part of [breeds] after the check: the requests. It yields
    [result] and the value of [types] from then on. *)
Definition fetch_breeds `{Catalog} (self : Petfinder) (types : option multi)
    : T (json * multi) :=
  match types with
  | Some (Scalar types) =>
      r ← get_json (breeds_url self types) (authorization self);
      mret (r, Scalar types)
  | _ =>
      let types :=
        match types with
        | Some (Collection types) => types
        | _ => ["dog"; "cat"; "rabbit"; "small-furry";
                "horse"; "bird"; "scales-fins-other"; "barnyard"]
        end in
      breeds ← for_in types (breeds_body self) [];
      mret (JDict [("breeds", JList breeds)], Collection types)
  end.

(** The DataFrame [breeds] builds under [return_df], before the column
    [breed] is put right. *)
Definition frame_of `{Catalog} (result : json) (types : multi) : outcome table :=
  match types with
  | Collection types =>
      for_in (seq 0 (length types))
        (λ df_results t,
           x ← listed result types t;
           f ← json_normalize_ x;
           mret (append df_results f))
        DataFrame_
  | Scalar _ =>
      x ← getitem result "breeds";
      f ← json_normalize_ x;
      mret (append DataFrame_ f)
  end.

(** The dict [json_result['breeds']] that [breeds] builds without
    [raw_results]. *)
Definition cleaned (result : json) (types : multi) : outcome (list (string * list json)) :=
  match types with
  | Collection types =>
      for_in (seq 0 (length types))
        (λ d t,
           type ← index types t;
           let d := dict_set type [] d in
           x ← listed result types t;
           breeds ← iterate x;
           for_in breeds
             (λ d breed,
                type ← index types t;
                name ← getitem breed "name";
                append_under type name d)
             d)
        []
  | Scalar types =>
      let d := dict_set types [] [] in
      x ← getitem result "breeds";
      breeds ← iterate x;
      for_in breeds
        (λ d breed,
           name ← getitem breed "name";
           append_under types name d)
        d
  end.

(** The part of [breeds] after the requests (api.py 254-295). *)
Definition finish_breeds `{Catalog} (result : json) (types : multi)
    (return_df raw_results : bool) : outcome breeds_result :=
  if return_df then
    df_results ← frame_of result types;
    df_results ← breed_column df_results;
    mret (Frame df_results)
  else if negb raw_results then
    d ← cleaned result types;
    mret (Json (json_result d))
  else
    mret (Json result).

(** The names [breeds] keeps of one body:
    [[breed['name'] for breed in body['breeds']]]. *)
Definition names_of (b : json) : outcome (list json) :=
  x ← getitem b "breeds";
  breeds ← iterate x;
  for_in breeds (λ names breed, name ← getitem breed "name"; mret (names ++ [name])) [].

(** The list [breeds] makes of the bodies: [[{t: body}, ...]]. *)
Definition keyed (types : list string) (bodies : list json) : list json :=
  zip_with (λ t b, JDict [(t, b)]) types bodies.

(** One round of the loop that keeps the names, on a type and its body. *)
Definition keep_names (d : list (string * list json)) (tb : string * json)
    : outcome (list (string * list json)) :=
  names ← names_of tb.2;
  mret (dict_set tb.1 names d).

(** [[breed['name'] for breed in breeds]], appended to [names]. *)
Definition gather (breeds : list json) (names : list json) : outcome (list json) :=
  for_in breeds (λ names breed, name ← getitem breed "name"; mret (names ++ [name])) names.

(** The bodies [zoo] answers with for the breeds of dog, cat and horse. *)
Definition dog_breeds : json :=
  JDict [("breeds", JList [JDict [("name", JStr "Akita")]; JDict [("name", JStr "Beagle")]])].

Definition cat_breeds : json :=
  JDict [("breeds", JList [JDict [("name", JStr "Siamese")]])].

Definition horse_breeds : json := JDict [("status", JNum "404")].


(** The computation [m] prints nothing and only adds requests to the
    world, each of which satisfies [P]. *)
Definition fetches {A} (P : request → Prop) (m : T A) : Prop :=
  ∀ w, ∃ rs, (m w).2 = after w rs [] ∧ Forall P rs.

(* ===================================================================== *)
(** * Lemmas on the validator *)
(* ===================================================================== *)

(** Scenario A of the specification. *)
Example scenario_A_message :
  _check_parameters None (Some (Collection ["small"; "huge"])) None None None None None None None None
  = Raise (ValueError
      ("sizes {'huge'} are not valid. Sizes must be of the following: ('small', 'medium', 'large', 'xlarge')" +:+ newline)).
Proof. vm_compute. reflexivity. Qed.

(** Scenario C of the specification. *)
Example scenario_C :
  ∃ m, _parameters {| Params.animal := None; Params.breed := None; Params.size := None;
         Params.gender := None; Params.color := None; Params.coat := None;
         Params.animal_type := None; Params.location := None; Params.distance := None;
         Params.state := None; Params.country := None; Params.query := None;
         Params.sort := None; Params.name := None; Params.age := None;
         Params.animal_id := None; Params.organization_id := None; Params.status := None;
         Params.results_per_page := Some 50; Params.page := None |} = Ok m
       ∧ m !! "limit" = Some (PInt 50) ∧ m !! "status" = None.
Proof. eexists. split; [reflexivity|]. split; vm_compute; reflexivity. Qed.

Lemma incorrect_values_unfold `{SetOrder} at_ sz g ag c st loc d so lim :
  incorrect_values at_ sz g ag c st loc d so lim =
  check_number 100 "limit" limit_message lim
  (check_number 500 "distance" distance_message d
  (check_single _location "location" location_message loc
  (check_single _sort "sort" sort_message so
  (check_single _status "status" status_message st
  (check_several _coats "coat" coat_message c
  (check_several _ages "age" age_message ag
  (check_several _genders "gender" gender_message g
  (check_several _sizes "size" size_message sz
  (check_single _animal_types "animal_types" animal_types_message at_ []))))))))).
Proof. reflexivity. Qed.

Lemma append_cons (x : ascii) (a b : string) : String x a +:+ b = String x (a +:+ b).
Proof. reflexivity. Qed.

Lemma append_assoc (a b c : string) : (a +:+ b) +:+ c = a +:+ (b +:+ c).
Proof. induction a as [|x a IH]; [done|]. by rewrite !append_cons, IH. Qed.

Lemma append_nil_r (a : string) : a +:+ "" = a.
Proof. induction a as [|x a IH]; [done|]. by rewrite append_cons, IH. Qed.

Lemma nonempty_difference `{SetOrder} (l acc : list string) :
  (0 <? length (difference_iter l acc))%nat
  = bool_decide (list_difference (remove_dups l) acc ≠ []).
Proof.
  pose proof (Permutation_length (difference_iter_perm l acc)) as Hlen.
  destruct (list_difference (remove_dups l) acc) as [|x r] eqn:E; simpl in Hlen.
  - destruct (difference_iter l acc); [done|discriminate].
  - destruct (difference_iter l acc); [discriminate|done].
Qed.

Lemma dict_set_fresh {V} (k : string) (v : V) (d : list (string * V)) :
  k ∉ d.*1 → dict_set k v d = d ++ [(k, v)].
Proof.
  induction d as [|[k' v'] d IH]; intros Hk; simpl; [done|].
  rewrite fmap_cons in Hk. apply not_elem_of_cons in Hk as [Hne Hk].
  rewrite bool_decide_eq_false_2 by (simpl in Hne; congruence).
  by rewrite IH.
Qed.

Lemma entries_keys `{SetOrder} f ds k :
  k ∈ (entries f ds).*1 → k ∈ map dimension_key ds.
Proof.
  unfold entries. induction ds as [|d ds IH]; simpl; [done|].
  destruct (violated f d); simpl.
  - rewrite !elem_of_cons. intros [->|Hk]; [by left|right; by apply IH].
  - intros Hk. apply elem_of_cons. right. by apply IH.
Qed.

Lemma entries_snoc `{SetOrder} f ds d :
  dimension_key d ∉ map dimension_key ds →
  (if violated f d
   then dict_set (dimension_key d) (dimension_message f d) (entries f ds)
   else entries f ds) = entries f (ds ++ [d]).
Proof.
  intros Hk. unfold entries at 3. rewrite List.filter_app, map_app. simpl.
  destruct (violated f d); simpl.
  - apply dict_set_fresh. intros ?%entries_keys. done.
  - by rewrite app_nil_r.
Qed.

Lemma check_single_spec `{SetOrder} f d acc msg x ds :
  rule_of d = OneOf acc → value_of f d = Single <$> x →
  (∀ s, x = Some s → dimension_message f d = msg s) →
  dimension_key d ∉ map dimension_key ds →
  check_single acc (dimension_key d) msg x (entries f ds) = entries f (ds ++ [d]).
Proof.
  intros Hr Hv Hm Hk. rewrite <- entries_snoc by done.
  unfold violated, offending, check_single, contains. rewrite Hr, Hv.
  destruct x as [s|]; simpl; [|done].
  rewrite (Hm s eq_refl). by destruct (bool_decide (s ∈ acc)).
Qed.

Lemma check_several_spec `{SetOrder} f d acc msg x ds :
  rule_of d = SomeOf acc → value_of f d = Several ∘ elements <$> x →
  (∀ m, x = Some m → dimension_message f d = msg (difference_iter (as_list m) acc)) →
  dimension_key d ∉ map dimension_key ds →
  check_several acc (dimension_key d) msg x (entries f ds) = entries f (ds ++ [d]).
Proof.
  intros Hr Hv Hm Hk. rewrite <- entries_snoc by done.
  unfold violated, offending, check_several. rewrite Hr, Hv.
  destruct x as [m|]; simpl; [|done].
  rewrite (Hm m eq_refl), nonempty_difference.
  replace (elements m) with (as_list m) by (by destruct m). done.
Qed.

Lemma check_number_spec `{SetOrder} f d b x ds :
  rule_of d = AtMost b → value_of f d = Number <$> x →
  dimension_key d ∉ map dimension_key ds →
  check_number b (dimension_key d) (dimension_message f d) x (entries f ds) = entries f (ds ++ [d]).
Proof.
  intros Hr Hv Hk. rewrite <- entries_snoc by done.
  unfold violated, offending, check_number. rewrite Hr, Hv.
  destruct x as [z|]; simpl; [|done].
  by destruct (b <? z).
Qed.


Ltac fresh_key := simpl; apply (bool_decide_unpack _); vm_compute; exact I.

Lemma errors_spec `{SetOrder} (f : Filters.t) :
  Filters.errors f = entries f check_order.
Proof.
  unfold Filters.errors. rewrite incorrect_values_unfold.
  change (@nil (string * string)) with (entries f []).
  rewrite (check_single_spec f AnimalType _ _ _ _ eq_refl eq_refl);
    [|unfold dimension_message; simpl; by intros ? ->|fresh_key].
  rewrite (check_several_spec f Size _ _ _ _ eq_refl eq_refl);
    [|unfold dimension_message; simpl; by intros ? ->|fresh_key].
  rewrite (check_several_spec f Gender _ _ _ _ eq_refl eq_refl);
    [|unfold dimension_message; simpl; by intros ? ->|fresh_key].
  rewrite (check_several_spec f Age _ _ _ _ eq_refl eq_refl);
    [|unfold dimension_message; simpl; by intros ? ->|fresh_key].
  rewrite (check_several_spec f Coat _ _ _ _ eq_refl eq_refl);
    [|unfold dimension_message; simpl; by intros ? ->|fresh_key].
  rewrite (check_single_spec f Status _ _ _ _ eq_refl eq_refl);
    [|unfold dimension_message; simpl; by intros ? ->|fresh_key].
  rewrite (check_single_spec f Sort _ _ _ _ eq_refl eq_refl);
    [|unfold dimension_message; simpl; by intros ? ->|fresh_key].
  rewrite (check_single_spec f Location _ _ _ _ eq_refl eq_refl);
    [|unfold dimension_message; simpl; by intros ? ->|fresh_key].
  rewrite (check_number_spec f Distance _ _ _ eq_refl eq_refl); [|fresh_key].
  rewrite (check_number_spec f Limit _ _ _ eq_refl eq_refl); [|fresh_key].
  reflexivity.
Qed.

Lemma join_errors_foldr (l : list (string * string)) (acc : string) :
  fold_left (λ errors kv, (errors +:+ kv.2) +:+ newline) l acc
  = acc +:+ foldr (λ kv rest, kv.2 +:+ newline +:+ rest) "" l.
Proof.
  revert acc. induction l as [|kv l IH]; intros acc; simpl.
  - by rewrite append_nil_r.
  - rewrite IH. by rewrite !append_assoc.
Qed.

Lemma join_errors_entries `{SetOrder} f ds :
  join_errors (entries f ds)
  = foldr (λ d rest, dimension_message f d +:+ newline +:+ rest) "" (List.filter (violated f) ds).
Proof.
  unfold join_errors. rewrite join_errors_foldr. change ("" +:+ ?x) with x.
  unfold entries. induction (List.filter (violated f) ds) as [|d l IH]; simpl; [done|].
  by rewrite IH.
Qed.

(** [_check_parameters] refines the rules: it accepts when no dimension is
    violated and raises the aggregated message otherwise. *)
Lemma check_spec `{SetOrder} (f : Filters.t) :
  Filters.check f =
  if forallb (λ d, negb (violated f d)) check_order then Ok tt
  else Raise (ValueError (aggregated f)).
Proof.
  unfold Filters.check, _check_parameters.
  change (incorrect_values _ _ _ _ _ _ _ _ _ _) with (Filters.errors f).
  rewrite errors_spec, join_errors_entries. fold (aggregated f).
  unfold entries. rewrite length_map.
  induction check_order as [|d ds IH]; simpl; [done|].
  destruct (violated f d); simpl; [done|]. apply IH.
Qed.

Lemma in_check_order d : d ∈ check_order.
Proof. destruct d; unfold check_order; repeat (first [by left | right]). Qed.

Lemma check_violated `{SetOrder} (f : Filters.t) :
  (∃ d, violated f d = true) → Filters.check f = Raise (ValueError (aggregated f)).
Proof.
  intros [d Hd]. rewrite check_spec.
  destruct (forallb _ check_order) eqn:Hall; [|done].
  rewrite forallb_forall in Hall. specialize (Hall d).
  rewrite Hd in Hall. discriminate Hall. apply list_elem_of_In, in_check_order.
Qed.

Lemma check_valid `{SetOrder} (f : Filters.t) :
  (∀ d, violated f d = false) → Filters.check f = Ok tt.
Proof.
  intros Hv. rewrite check_spec.
  destruct (forallb _ check_order) eqn:Hall; [done|].
  assert (forallb (λ d, negb (violated f d)) check_order = true) as Ht; [|congruence].
  apply forallb_forall. intros d _. by rewrite Hv.
Qed.

Lemma check_ok_valid `{SetOrder} (f : Filters.t) d :
  Filters.check f = Ok tt → violated f d = false.
Proof.
  rewrite check_spec. destruct (forallb _ check_order) eqn:Hall; [|done]. intros _.
  rewrite forallb_forall in Hall. specialize (Hall d (proj1 (list_elem_of_In _ _) (in_check_order d))).
  by destruct (violated f d).
Qed.

Lemma parameters_ok `{SetOrder} (k : Params.kwargs) :
  Filters.check (params_filters k) = Ok tt → _parameters k = Ok (omap id (args k)).
Proof.
  unfold Filters.check, params_filters. cbn [Filters.animal_types Filters.size Filters.gender Filters.age Filters.coat Filters.status Filters.location Filters.distance Filters.sort Filters.limit].
  intros Hc. unfold _parameters. by rewrite Hc.
Qed.

Lemma substring_of_refl s : substring_of s s.
Proof. exists "", "". by rewrite append_nil_r. Qed.

Lemma substring_of_app_l n a h : substring_of n h → substring_of n (a +:+ h).
Proof. intros (pre & post & ->). exists (a +:+ pre), post. by rewrite append_assoc. Qed.

Lemma substring_of_app_r n h b : substring_of n h → substring_of n (h +:+ b).
Proof.
  intros (pre & post & ->). exists pre, (post +:+ b). by rewrite !append_assoc.
Qed.

Lemma substring_of_trans a b c : substring_of a b → substring_of b c → substring_of a c.
Proof.
  intros Hab (pre & post & ->). by apply substring_of_app_l, substring_of_app_r.
Qed.

Lemma substring_of_concat sep x l : x ∈ l → substring_of x (String.concat sep l).
Proof.
  induction l as [|y l IH]; intros Hx; [by apply elem_of_nil in Hx|].
  apply elem_of_cons in Hx as [->|Hx].
  - destruct l as [|z l]; simpl; [apply substring_of_refl|].
    apply substring_of_app_r, substring_of_refl.
  - destruct l as [|z l]; [by apply elem_of_nil in Hx|].
    change (String.concat sep (y :: z :: l)) with (y +:+ sep +:+ String.concat sep (z :: l)).
    by apply substring_of_app_l, substring_of_app_l, IH.
Qed.

Lemma prefix_app n post : String.prefix n (n +:+ post) = true.
Proof.
  induction n as [|c n IH]; [by destruct post|].
  rewrite append_cons. simpl. destruct (Ascii.ascii_dec c c); [exact IH|done].
Qed.

Lemma occurs_in_prefix n h : String.prefix n h = true → occurs_in n h = true.
Proof. destruct h; simpl; by intros ->. Qed.

Lemma occurs_in_complete n h : substring_of n h → occurs_in n h = true.
Proof.
  intros (pre & post & ->). induction pre as [|c pre IH].
  - change ("" +:+ ?x) with x. apply occurs_in_prefix, prefix_app.
  - rewrite append_cons. simpl. rewrite IH. apply orb_true_r.
Qed.

Lemma prefix_sound n h : String.prefix n h = true → ∃ post, h = n +:+ post.
Proof.
  revert h. induction n as [|c n IH]; intros h Hp.
  - by exists h.
  - destruct h as [|c' h]; simpl in Hp; [done|].
    destruct (Ascii.ascii_dec c c') as [->|]; [|done].
    destruct (IH h Hp) as [post ->]. by exists post.
Qed.

Lemma occurs_in_sound n h : occurs_in n h = true → substring_of n h.
Proof.
  induction h as [|c h IH]; intros Ho.
  - destruct n; [by exists "", ""|done].
  - cbn [occurs_in] in Ho. apply orb_true_iff in Ho as [Hp|Ho].
    + destruct (prefix_sound _ _ Hp) as [post ->]. by exists "", post.
    + destruct (IH Ho) as (pre & post & ->). by exists (String c pre), post.
Qed.

Lemma repr_set_lists (diff : list string) (v : string) :
  v ∈ diff → substring_of (repr_str v) (repr_set diff).
Proof.
  intros Hv. destruct diff as [|x diff]; [by apply elem_of_nil in Hv|].
  unfold repr_set. apply substring_of_app_l, substring_of_app_r, substring_of_concat.
  apply (list_elem_of_fmap_2 repr_str) in Hv. exact Hv.
Qed.

Lemma accepted_listed (d : dimension) (a : string) :
  a ∈ accepted d → substring_of a (repr_tuple (accepted d)).
Proof.
  destruct d; unfold accepted; simpl; intros Ha;
    repeat (apply elem_of_cons in Ha as [->|Ha];
            [apply occurs_in_sound; vm_compute; reflexivity|]);
    by apply elem_of_nil in Ha.
Qed.

Lemma offending_iterated `{SetOrder} (l acc : list string) (v : string) :
  v ∈ list_difference (remove_dups l) acc → v ∈ difference_iter l acc.
Proof. intros Hv. by rewrite (difference_iter_perm l acc). Qed.

Lemma enumerated_message `{SetOrder} (f : Filters.t) (d : dimension) :
  enumerated d = true → violated f d = true →
  (∀ v, v ∈ offending f d → substring_of (shown d v) (dimension_message f d))
  ∧ substring_of (repr_tuple (accepted d)) (dimension_message f d).
Proof.
  intros He Hv. destruct f as [at_ sz g ag c st loc dist so lim].
  unfold violated in Hv. apply bool_decide_eq_true in Hv. revert Hv.
  destruct d; try discriminate He;
    unfold offending, dimension_message, shown, accepted; simpl.
  all: match goal with
       | |- context [Single <$> ?x] => destruct x as [s|]; simpl; [|done]
       | |- context [Several ∘ elements <$> ?x] => destruct x as [m|]; simpl; [|done]
       end.
  all: intros Hne; split;
       [|unfold animal_types_message, size_message, gender_message, age_message,
           coat_message, status_message, sort_message, location_message;
         do 3 apply substring_of_app_l; apply substring_of_refl].
  all: intros v Hv.
  all: try (apply offending_iterated in Hv;
            unfold size_message, gender_message, age_message, coat_message;
            apply substring_of_app_l, substring_of_app_r; by apply repr_set_lists).
  all: case_bool_decide; [done|];
       apply list_elem_of_singleton in Hv as ->;
       unfold animal_types_message, status_message, sort_message, location_message;
       apply substring_of_app_l, substring_of_app_r, substring_of_refl.
Qed.

Lemma violated_distance f :
  violated f Distance = match Filters.distance f with Some z => 500 <? z | None => false end.
Proof.
  unfold violated, offending. simpl. destruct (Filters.distance f) as [z|]; simpl; [|done].
  by destruct (500 <? z).
Qed.

Lemma violated_limit f :
  violated f Limit = match Filters.limit f with Some z => 100 <? z | None => false end.
Proof.
  unfold violated, offending. simpl. destruct (Filters.limit f) as [z|]; simpl; [|done].
  by destruct (100 <? z).
Qed.

Lemma violated_location f :
  violated f Location
  = match Filters.location f with
    | Some s => negb (bool_decide (s ∈ ["city,state"; "latitude,longitude"; "postal code"]))
    | None => false
    end.
Proof.
  unfold violated, offending. simpl. destruct (Filters.location f) as [s|]; simpl; [|done].
  by destruct (bool_decide (s ∈ ["city,state"; "latitude,longitude"; "postal code"])).
Qed.

Lemma violated_with_bounds dist lim f d :
  d ≠ Distance → d ≠ Limit →
  violated (with_limit lim (with_distance dist f)) d = violated f d.
Proof. intros Hd Hl. by destruct d. Qed.

Lemma check_ok_iff `{SetOrder} (f : Filters.t) :
  Filters.check f = Ok tt ↔ ∀ d, violated f d = false.
Proof.
  split; [intros Hc d; by apply check_ok_valid|apply check_valid].
Qed.

Lemma dimension_key_inj d d' : dimension_key d = dimension_key d' → d = d'.
Proof. destruct d, d'; simpl; intros [=]; reflexivity. Qed.

Lemma errors_violated `{SetOrder} (f : Filters.t) (d : dimension) :
  violated f d = true → (dimension_key d, dimension_message f d) ∈ Filters.errors f.
Proof.
  intros Hv. rewrite errors_spec. unfold entries.
  apply (list_elem_of_fmap_2 (λ d, (dimension_key d, dimension_message f d))).
  apply list_elem_of_In, filter_In. split; [|done].
  apply list_elem_of_In, in_check_order.
Qed.

Lemma errors_key `{SetOrder} (f : Filters.t) (d : dimension) :
  dimension_key d ∈ (Filters.errors f).*1 → violated f d = true.
Proof.
  rewrite errors_spec. unfold entries. intros Hk.
  apply list_elem_of_fmap in Hk as ([k m] & Hk & Hin). simpl in Hk. subst k.
  apply list_elem_of_fmap in Hin as (d' & Heq & Hin).
  injection Heq as Hkey _. apply dimension_key_inj in Hkey as ->.
  apply list_elem_of_In, filter_In in Hin. apply Hin.
Qed.

(* ===================================================================== *)
(** * Lemmas on the client *)
(* ===================================================================== *)

Ltac run := unfold mbind, M_bind, mret, M_ret, lift; simpl.

Lemma after_nil w : after w [] [] = w.
Proof. destruct w. unfold after. simpl. by rewrite !app_nil_r. Qed.

Lemma after_after w rs ls rs' ls' : after (after w rs ls) rs' ls' = after w (rs ++ rs') (ls ++ ls').
Proof. unfold after. simpl. by rewrite !app_assoc. Qed.

Lemma requests_get_eq `{Remote} u h p w :
  requests_get u h p w =
  (match server {| url := u; headers := h; params := p |} with
   | Some r => Ok r | None => Raise RequestException end,
   after w [{| url := u; headers := h; params := p |}] []).
Proof. unfold requests_get, after. simpl. by rewrite app_nil_r. Qed.


Lemma for_each_cons {A S} (x : A) (xs : list A) (body : S → A → M S) (s : S) (w : world) :
  for_each (x :: xs) body s w =
  match body s x w with
  | (Ok s', w') => for_each xs body s' w'
  | (Raise e, w') => (Raise e, w')
  end.
Proof. reflexivity. Qed.

Lemma for_each_nil {A S} (body : S → A → M S) (s : S) (w : world) :
  for_each [] body s w = (Ok s, w).
Proof. reflexivity. Qed.

Section Lookup.
Context `{Remote} (self : Petfinder) (path singular : string).

Lemma lookup_body_eq acc x w :
  lookup_body self path singular acc x w =
  (match server (entity_request self path x) with
   | Some (Entity r) => Ok (acc ++ [r])
   | Some (Page _ _) => Raise (KeyError singular)
   | None => Raise RequestException
   end, after w [entity_request self path x] []).
Proof.
  unfold lookup_body, after, entity_request, requests_get. run.
  rewrite app_nil_r.
  by destruct (server _) as [[r|items n]|].
Qed.

Lemma lookup_loop ids rs acc w :
  Forall2 (λ x r, server (entity_request self path x) = Some (Entity r)) ids rs →
  for_each ids (lookup_body self path singular) acc w
  = (Ok (acc ++ rs), after w (map (entity_request self path) ids) []).
Proof.
  intros HF. revert acc w. induction HF as [|x r ids rs Hx HF IH]; intros acc w.
  - by rewrite for_each_nil, app_nil_r, after_nil.
  - rewrite for_each_cons, lookup_body_eq, Hx, IH, after_after. simpl.
    by rewrite <- app_assoc.
Qed.

Lemma lookup_many_eq ids w :
  lookup self path singular (ManyIds ids) w =
  match for_each ids (lookup_body self path singular) [] w with
  | (Ok rs, w') => (Ok (Many rs), w')
  | (Raise e, w') => (Raise e, w')
  end.
Proof. reflexivity. Qed.

Lemma lookup_one_eq x w :
  lookup self path singular (OneId x) w =
  (match server (entity_request self path x) with
   | Some (Entity r) => Ok (One r)
   | Some (Page _ _) => Raise (KeyError singular)
   | None => Raise RequestException
   end, after w [entity_request self path x] []).
Proof.
  unfold lookup, after, entity_request, requests_get. run.
  rewrite app_nil_r.
  by destruct (server _) as [[r|items n]|].
Qed.

Lemma lookup_many ids rs w :
  Forall2 (λ x r, server (entity_request self path x) = Some (Entity r)) ids rs →
  lookup self path singular (ManyIds ids) w
  = (Ok (Many rs), after w (map (entity_request self path) ids) []).
Proof. intros HF. by rewrite lookup_many_eq, (lookup_loop ids rs [] w HF). Qed.

Lemma lookup_one x r w :
  server (entity_request self path x) = Some (Entity r) →
  lookup self path singular (OneId x) w = (Ok (One r), after w [entity_request self path x] []).
Proof. intros Hx. by rewrite lookup_one_eq, Hx. Qed.

Lemma lookup_loop_no_value_error ids acc w :
  is_validation_error (for_each ids (lookup_body self path singular) acc w).1 = false.
Proof.
  revert acc w. induction ids as [|x ids IH]; intros acc w; [done|].
  rewrite for_each_cons, lookup_body_eq.
  destruct (server _) as [[r|items n]|]; simpl; [apply IH|done..].
Qed.

Lemma lookup_no_value_error x w :
  is_validation_error (lookup self path singular x w).1 = false.
Proof.
  destruct x as [x|ids].
  - rewrite lookup_one_eq. by destruct (server _) as [[r|items n]|].
  - rewrite lookup_many_eq.
    pose proof (lookup_loop_no_value_error ids [] w) as Hn.
    destruct (for_each ids (lookup_body self path singular) [] w) as [[rs|e] w'];
      simpl in *; [done|exact Hn].
Qed.
End Lookup.

Section ById.
Context `{SetOrder} `{Remote} (self : Petfinder).

Lemma animals_by_id a x w :
  Animals.animal_id a = Some x →
  animals self a w =
  match lookup self "animals/" "animal" x w with
  | (Ok v, w') => (Ok (returned "animals" (Animals.return_df a) v), w')
  | (Raise e, w') => (Raise e, w')
  end.
Proof.
  intros Hid. unfold animals. rewrite Hid.
  unfold mbind, M_bind, mret, M_ret, finish, returned.
  destruct (lookup self "animals/" "animal" x w) as [[v|e] w']; [|done].
  by destruct (Animals.return_df a).
Qed.

Lemma organizations_by_id a x w :
  Organizations.organization_id a = Some x →
  organizations self a w =
  match lookup self "organizations/" "organization" x w with
  | (Ok v, w') => (Ok (returned "organizations" (Organizations.return_df a) v), w')
  | (Raise e, w') => (Raise e, w')
  end.
Proof.
  intros Hid. unfold organizations. rewrite Hid.
  unfold mbind, M_bind, mret, M_ret, finish, returned.
  destruct (lookup self "organizations/" "organization" x w) as [[v|e] w']; [|done].
  by destruct (Organizations.return_df a).
Qed.

Lemma animals_invalid a e w :
  Animals.animal_id a = None →
  Filters.check (animals_filters a) = Raise e →
  animals self a w = (Raise e, w).
Proof.
  intros Hid Hc. unfold animals. rewrite Hid.
  unfold mbind at 1. unfold M_bind. unfold mbind at 1. unfold M_bind.
  unfold lift, _parameters. cbn [Params.animal Params.breed Params.size Params.gender Params.color Params.coat Params.animal_type Params.location Params.distance Params.state Params.country Params.query Params.sort Params.name Params.age Params.animal_id Params.organization_id Params.status Params.results_per_page Params.page].
  unfold Filters.check, animals_filters in Hc. cbn [Filters.animal_types Filters.size Filters.gender Filters.age Filters.coat Filters.status Filters.location Filters.distance Filters.sort Filters.limit] in Hc. by rewrite Hc.
Qed.

Lemma organizations_invalid a e w :
  Organizations.organization_id a = None →
  Filters.check (organizations_filters a) = Raise e →
  organizations self a w = (Raise e, w).
Proof.
  intros Hid Hc. unfold organizations. rewrite Hid.
  unfold mbind at 1. unfold M_bind. unfold mbind at 1. unfold M_bind.
  unfold lift, _parameters. cbn [Params.animal Params.breed Params.size Params.gender Params.color Params.coat Params.animal_type Params.location Params.distance Params.state Params.country Params.query Params.sort Params.name Params.age Params.animal_id Params.organization_id Params.status Params.results_per_page Params.page].
  unfold Filters.check, organizations_filters in Hc. cbn [Filters.animal_types Filters.size Filters.gender Filters.age Filters.coat Filters.status Filters.location Filters.distance Filters.sort Filters.limit] in Hc. by rewrite Hc.
Qed.
End ById.

Section Search.
Context `{Remote} (self : Petfinder) (path plural : string) (q0 : gmap string pyval).

Lemma search_body_eq acc q p w :
  search_body self path plural (acc, <["page" := PInt q]> q0) p w =
  (match server (page_request self path q0 p) with
   | Some (Page items _) => Ok (acc ++ items, <["page" := PInt p]> q0)
   | Some (Entity _) => Raise (KeyError plural)
   | None => Raise RequestException
   end, after w [page_request self path q0 p] []).
Proof.
  unfold search_body, after, page_request, requests_get.
  unfold mbind, M_bind, mret, M_ret, lift. simpl.
  rewrite app_nil_r, insert_insert_eq.
  by destruct (server _) as [[r|items n]|].
Qed.

Lemma search_loop (items : Z → list record) (m : Z) ps acc q w :
  (∀ p, p ∈ ps → server (page_request self path q0 p) = Some (Page (items p) m)) →
  ∃ q', for_each ps (search_body self path plural) (acc, <["page" := PInt q]> q0) w
        = (Ok (acc ++ concat (map items ps), <["page" := PInt q']> q0),
           after w (map (page_request self path q0) ps) []).
Proof.
  revert acc q w. induction ps as [|p ps IH]; intros acc q w Hs.
  - exists q. by rewrite for_each_nil, app_nil_r, after_nil.
  - rewrite for_each_cons, search_body_eq, (Hs p) by (by left).
    destruct (IH (acc ++ items p) p (after w [page_request self path q0 p] [])) as [q' ->].
    { intros p' Hp'. apply Hs. by right. }
    exists q'. rewrite after_after. simpl. by rewrite <- app_assoc.
Qed.

Lemma search_paged_eq n w :
  search self path plural q0 (Some n) w =
  match server (page_request self path q0 1) with
  | Some (Page items m) =>
      match for_each (range 2 (page_bound n m)) (search_body self path plural)
              (items, <["page" := PInt 1]> q0) (after w [page_request self path q0 1] []) with
      | (Ok (animals, _), w') => (Ok (Many animals, m <? n + 1, m), w')
      | (Raise e, w') => (Raise e, w')
      end
  | Some (Entity _) => (Raise (KeyError plural), after w [page_request self path q0 1] [])
  | None => (Raise RequestException, after w [page_request self path q0 1] [])
  end.
Proof.
  transitivity
    ((r ← requests_get (urljoin (host self) path) (authorization self)
            (Some (<["page" := PInt 1]> q0));
      animals ← lift (json_items plural r);
      max_pages ← lift (json_total_pages r);
      s ← for_each (range 2 (page_bound n max_pages)) (search_body self path plural)
            (animals, <["page" := PInt 1]> q0);
      mret (Many s.1, max_pages <? n + 1, max_pages)) w).
  { unfold search, page_bound, mbind, M_bind, mret, M_ret, lift.
    destruct (requests_get _ _ _ w) as [[[r|items m]|e] w']; try reflexivity.
    cbn [json_items json_total_pages].
    destruct (m <? n + 1);
      (change (for_each ?l _ ?s w') with (for_each l (search_body self path plural) s w');
       destruct (for_each _ (search_body self path plural) _ w') as [[[animals ps]|e] w''];
       reflexivity). }
  unfold mbind, M_bind, mret, M_ret, lift. rewrite requests_get_eq.
  fold (page_request self path q0 1).
  destruct (server _) as [[r|items m]|]; try reflexivity.
  cbn [json_items json_total_pages].
  by destruct (for_each _ _ _ _) as [[[animals ps]|e] w'].
Qed.

(** What the paged branch does when the server answers the pages it is
    asked for: it fetches [pages_fetched n m] and nothing else. *)
Lemma search_paged (items : Z → list record) n m w :
  (∀ p, p ∈ pages_fetched n m →
        server (page_request self path q0 p) = Some (Page (items p) m)) →
  search self path plural q0 (Some n) w =
  (Ok (Many (concat (map items (pages_fetched n m))), m <? n + 1, m),
   after w (map (page_request self path q0) (pages_fetched n m)) []).
Proof.
  intros Hs. rewrite search_paged_eq, (Hs 1) by (by left).
  destruct (search_loop items m (range 2 (page_bound n m)) (items 1) 1
              (after w [page_request self path q0 1] [])) as [q' ->].
  { intros p Hp. apply Hs. by right. }
  by rewrite after_after.
Qed.

Lemma search_single items m w :
  server {| url := urljoin (host self) path; headers := authorization self;
            params := Some q0 |} = Some (Page items m) →
  search self path plural q0 None w =
  (Ok (Many items, false, 0),
   after w [{| url := urljoin (host self) path; headers := authorization self;
               params := Some q0 |}] []).
Proof.
  intros Hs. unfold search, after, requests_get.
  unfold mbind, M_bind, mret, M_ret, lift. simpl.
  by rewrite Hs, app_nil_r.
Qed.
End Search.

Lemma pages_fetched_below n m :
  1 ≤ n < m → pages_fetched n m = seqZ 1 n ∧ (m <? n + 1) = false.
Proof.
  intros Hn. unfold pages_fetched, page_bound, range.
  assert ((m <? n + 1) = false) as -> by (apply Z.ltb_ge; lia). split; [|done].
  rewrite (seqZ_cons 1 n) by lia. do 2 f_equal; lia.
Qed.

Lemma pages_fetched_clamped n m :
  2 ≤ m ≤ n → pages_fetched n m = seqZ 1 (m - 1) ∧ (m <? n + 1) = true.
Proof.
  intros Hn. unfold pages_fetched, page_bound, range.
  assert ((m <? n + 1) = true) as -> by (apply Z.ltb_lt; lia). split; [|done].
  rewrite (seqZ_cons 1 (m - 1)) by lia. do 2 f_equal; lia.
Qed.

Section BySearch.
Context `{SetOrder} `{Remote} (self : Petfinder).

Lemma animals_by_search a q w :
  Animals.animal_id a = None →
  _parameters (animals_query a) = Ok q →
  animals self a w =
  match search self "animals/" "animals" q (Animals.pages a) w with
  | (Ok (v, warning, max_pages), w') =>
      (Ok (returned "animals" (Animals.return_df a) v), noticed warning max_pages w')
  | (Raise e, w') => (Raise e, w')
  end.
Proof.
  intros Hid Hq. unfold animals. rewrite Hid.
  fold (animals_query a). rewrite Hq.
  unfold mbind at 1. unfold M_bind. unfold mbind at 1. unfold M_bind. unfold lift at 1.
  destruct (search self "animals/" "animals" q (Animals.pages a) w)
    as [[[[v warning] max_pages]|e] w']; [|done].
  unfold finish, returned, noticed, mbind, M_bind, mret, M_ret, print, after.
  destruct warning, (Animals.return_df a); simpl; by rewrite ?app_nil_r.
Qed.

Lemma organizations_by_search a q w :
  Organizations.organization_id a = None →
  _parameters (organizations_query a) = Ok q →
  organizations self a w =
  match search self "organizations/" "organizations" q (Organizations.pages a) w with
  | (Ok (v, warning, max_pages), w') =>
      (Ok (returned "organizations" (Organizations.return_df a) v),
       noticed warning max_pages w')
  | (Raise e, w') => (Raise e, w')
  end.
Proof.
  intros Hid Hq. unfold organizations. rewrite Hid.
  fold (organizations_query a). rewrite Hq.
  unfold mbind at 1. unfold M_bind. unfold mbind at 1. unfold M_bind. unfold lift at 1.
  destruct (search self "organizations/" "organizations" q (Organizations.pages a) w)
    as [[[[v warning] max_pages]|e] w']; [|done].
  unfold finish, returned, noticed, mbind, M_bind, mret, M_ret, print, after.
  destruct warning, (Organizations.return_df a); simpl; by rewrite ?app_nil_r.
Qed.
End BySearch.

(** ** Paging, in general *)

Section Paging.
Context `{SetOrder} `{Remote} (self : Petfinder).

(** What [animals(pages=n)] does against a server that reports [m] pages
    and answers page [p] with [items p]: it fetches [pages_fetched n m], in
    that order, returns their items in that order, and prints the notice
    when [m < n + 1]. *)
Lemma animals_paged (items : Z → list record) a q n m w :
  Animals.animal_id a = None → Animals.pages a = Some n → Animals.return_df a = false →
  _parameters (animals_query a) = Ok q →
  (∀ p, p ∈ pages_fetched n m →
        server (page_request self "animals/" q p) = Some (Page (items p) m)) →
  animals self a w =
  (Ok (Dict "animals" (Many (concat (map items (pages_fetched n m))))),
   after w (map (page_request self "animals/" q) (pages_fetched n m))
     (if m <? n + 1 then [notice m] else [])).
Proof.
  intros Hid Hp Hdf Hq Hs.
  rewrite (animals_by_search self a q w Hid Hq), Hp, (search_paged _ _ _ _ items n m w Hs).
  unfold returned, noticed. rewrite Hdf.
  destruct (m <? n + 1); [|done]. by rewrite after_after, app_nil_r.
Qed.

Lemma organizations_paged (items : Z → list record) a q n m w :
  Organizations.organization_id a = None → Organizations.pages a = Some n →
  Organizations.return_df a = false →
  _parameters (organizations_query a) = Ok q →
  (∀ p, p ∈ pages_fetched n m →
        server (page_request self "organizations/" q p) = Some (Page (items p) m)) →
  organizations self a w =
  (Ok (Dict "organizations" (Many (concat (map items (pages_fetched n m))))),
   after w (map (page_request self "organizations/" q) (pages_fetched n m))
     (if m <? n + 1 then [notice m] else [])).
Proof.
  intros Hid Hp Hdf Hq Hs.
  rewrite (organizations_by_search self a q w Hid Hq), Hp,
    (search_paged _ _ _ _ items n m w Hs).
  unfold returned, noticed. rewrite Hdf.
  destruct (m <? n + 1); [|done]. by rewrite after_after, app_nil_r.
Qed.

(** Below the total, [pages=n] returns pages 1 to [n] and prints nothing. *)
Lemma animals_pages_below_total (items : Z → list record) a q n m w :
  1 ≤ n < m →
  Animals.animal_id a = None → Animals.pages a = Some n → Animals.return_df a = false →
  _parameters (animals_query a) = Ok q →
  (∀ p, 1 ≤ p ≤ n → server (page_request self "animals/" q p) = Some (Page (items p) m)) →
  animals self a w =
  (Ok (Dict "animals" (Many (concat (map items (seqZ 1 n))))),
   after w (map (page_request self "animals/" q) (seqZ 1 n)) []).
Proof.
  intros Hn Hid Hp Hdf Hq Hs. destruct (pages_fetched_below n m Hn) as [Hf Hlt].
  rewrite (animals_paged items a q n m w Hid Hp Hdf Hq), Hf, Hlt; [done|].
  rewrite Hf. intros p Hin. apply elem_of_seqZ in Hin. apply Hs. lia.
Qed.

(** From the total on, [pages=n] returns pages 1 to [m - 1] only, one page
    short of the [m] pages the notice announces. *)
Lemma animals_pages_from_total (items : Z → list record) a q n m w :
  2 ≤ m ≤ n →
  Animals.animal_id a = None → Animals.pages a = Some n → Animals.return_df a = false →
  _parameters (animals_query a) = Ok q →
  (∀ p, 1 ≤ p ≤ m - 1 → server (page_request self "animals/" q p) = Some (Page (items p) m)) →
  animals self a w =
  (Ok (Dict "animals" (Many (concat (map items (seqZ 1 (m - 1)))))),
   after w (map (page_request self "animals/" q) (seqZ 1 (m - 1))) [notice m]).
Proof.
  intros Hn Hid Hp Hdf Hq Hs. destruct (pages_fetched_clamped n m Hn) as [Hf Hlt].
  rewrite (animals_paged items a q n m w Hid Hp Hdf Hq), Hf, Hlt; [done|].
  rewrite Hf. intros p Hin. apply elem_of_seqZ in Hin. apply Hs. lia.
Qed.

End Paging.

(* ===================================================================== *)
(** * The claims *)
(* ===================================================================== *)

(** C1: with [pages=3] and [total_pages=2] the code fetches page 1 only and
    returns its items, without the items of page 2, and prints the notice
    that says 2 pages were returned. *)
Theorem pages_3_of_2_returns_page_1_only :
  @animals insertion_order two_pages client (animals_pages 3) fresh
  = (Ok (@Dict two_pages "animals" (Many ["rex"; "tom"])),
     {| requests := [page_request client "animals/" {["limit" := PInt 20]} 1];
        stdout := [notice 2] |})
  ∧ @organizations insertion_order two_pages client (organizations_pages 3) fresh
  = (Ok (@Dict two_pages "organizations" (Many ["rex"; "tom"])),
     {| requests := [page_request client "organizations/" {["limit" := PInt 20]} 1];
        stdout := [notice 2] |}).
Proof. split; vm_compute; reflexivity. Qed.

(** C2: with [pages=2] and [total_pages=2] the code fetches page 1 only,
    returns one page of items instead of two, and prints the notice. *)
Theorem pages_2_of_2_returns_page_1_only :
  @animals insertion_order two_pages client (animals_pages 2) fresh
  = (Ok (@Dict two_pages "animals" (Many ["rex"; "tom"])),
     {| requests := [page_request client "animals/" {["limit" := PInt 20]} 1];
        stdout := [notice 2] |})
  ∧ @organizations insertion_order two_pages client (organizations_pages 2) fresh
  = (Ok (@Dict two_pages "organizations" (Many ["rex"; "tom"])),
     {| requests := [page_request client "organizations/" {["limit" := PInt 20]} 1];
        stdout := [notice 2] |}).
Proof. split; vm_compute; reflexivity. Qed.

(** With [pages=1] every requested page is returned and nothing is printed. *)
Example pages_1_of_2 :
  @animals insertion_order two_pages client (animals_pages 1) fresh
  = (Ok (@Dict two_pages "animals" (Many ["rex"; "tom"])),
     {| requests := [page_request client "animals/" {["limit" := PInt 20]} 1];
        stdout := [] |}).
Proof. vm_compute; reflexivity. Qed.

(** C3 (amended): when some dimension is violated, [_check_parameters]
    raises one [ValueError] whose message is the text of every violated
    dimension, each followed by a newline, in the order animal type, size,
    gender, age, coat, status, sort, location, distance, limit; the text of
    an enumerated dimension shows every offending value and lists the
    accepted values; when no dimension is violated, nothing is raised. *)
Theorem check_parameters_aggregates `{SetOrder} (f : Filters.t) :
  ((∃ d, violated f d = true) → Filters.check f = Raise (ValueError (aggregated f)))
  ∧ ((∀ d, violated f d = false) → Filters.check f = Ok tt)
  ∧ (∀ d, enumerated d = true → violated f d = true →
       (∀ v, v ∈ offending f d → substring_of (shown d v) (dimension_message f d))
       ∧ substring_of (repr_tuple (accepted d)) (dimension_message f d)
       ∧ (∀ a, a ∈ accepted d → substring_of a (dimension_message f d))).
Proof.
  split; [apply check_violated|]. split; [apply check_valid|].
  intros d He Hv. destruct (enumerated_message f d He Hv) as [Ho Ha].
  split; [exact Ho|]. split; [exact Ha|].
  intros a Hin. eapply substring_of_trans; [by apply accepted_listed|exact Ha].
Qed.

Lemma check_parameters_aggregates_witness :
  Filters.check huge_and_far
  = Raise (ValueError
      ("sizes {'huge'} are not valid. Sizes must be of the following: ('small', 'medium', 'large', 'xlarge')"
       +:+ newline +:+ "distance cannot be greater than 500" +:+ newline))
  ∧ substring_of "'huge'" (dimension_message huge_and_far Size)
  ∧ substring_of "xlarge" (dimension_message huge_and_far Size).
Proof.
  destruct (check_parameters_aggregates huge_and_far) as (Hr & _ & Hm).
  split; [apply Hr; exists Size; reflexivity|].
  destruct (Hm Size eq_refl eq_refl) as (Ho & _ & Ha).
  split.
  - apply (Ho "huge"). vm_compute. repeat constructor.
  - apply (Ha "xlarge"). vm_compute. repeat constructor.
Defined.

(** C3 as stated fails on the numeric dimensions: for [distance=501] the
    text of the distance dimension does not show the offending value. *)
Lemma distance_message_omits_value :
  violated far Distance = true
  ∧ offending far Distance = ["501"]
  ∧ Filters.check far = Raise (ValueError (dimension_message far Distance +:+ newline))
  ∧ ¬ substring_of "501" (dimension_message far Distance).
Proof.
  split; [reflexivity|]. split; [reflexivity|]. split; [reflexivity|].
  intros Hs. apply occurs_in_complete in Hs. vm_compute in Hs. discriminate Hs.
Qed.

(** C4: when the other filters are valid, validation accepts exactly when
    the distance, if given, is at most 500 and the limit, if given, is at
    most 100: 501 and 101 are rejected, 500 and 100 accepted. *)
Theorem distance_and_limit_bounds `{SetOrder} (f : Filters.t) :
  (∀ d, d ≠ Distance → d ≠ Limit → violated f d = false) →
  (∀ dist lim,
      Filters.check (with_limit lim (with_distance dist f)) = Ok tt
      ↔ (∀ z, dist = Some z → z ≤ 500) ∧ (∀ z, lim = Some z → z ≤ 100))
  ∧ is_validation_error (Filters.check (with_limit None (with_distance (Some 501) f))) = true
  ∧ Filters.check (with_limit None (with_distance (Some 500) f)) = Ok tt
  ∧ is_validation_error (Filters.check (with_limit (Some 101) (with_distance None f))) = true
  ∧ Filters.check (with_limit (Some 100) (with_distance None f)) = Ok tt.
Proof.
  intros Hf.
  assert (∀ dist lim,
      Filters.check (with_limit lim (with_distance dist f)) = Ok tt
      ↔ (∀ z, dist = Some z → z ≤ 500) ∧ (∀ z, lim = Some z → z ≤ 100)) as Hiff.
  { intros dist lim. rewrite check_ok_iff. split.
    - intros Hv. split; intros z ->.
      + specialize (Hv Distance). rewrite violated_distance in Hv. simpl in Hv. lia.
      + specialize (Hv Limit). rewrite violated_limit in Hv. simpl in Hv. lia.
    - intros [Hd Hl] d.
      destruct (decide (d = Distance)) as [->|Hnd].
      { rewrite violated_distance. simpl. destruct dist as [z|]; [|done].
        specialize (Hd z eq_refl). lia. }
      destruct (decide (d = Limit)) as [->|Hnl].
      { rewrite violated_limit. simpl. destruct lim as [z|]; [|done].
        specialize (Hl z eq_refl). lia. }
      rewrite violated_with_bounds by done. by apply Hf. }
  split; [exact Hiff|].
  split.
  { rewrite check_violated; [done|]. exists Distance. by rewrite violated_distance. }
  split.
  { apply Hiff. split; intros z [=]; lia. }
  split.
  { rewrite check_violated; [done|]. exists Limit. by rewrite violated_limit. }
  apply Hiff. split; intros z [=]; lia.
Qed.

Lemma distance_and_limit_bounds_witness :
  (∀ d, d ≠ Distance → d ≠ Limit → violated small_adoptable d = false)
  ∧ Filters.check (with_limit None (with_distance (Some 501) small_adoptable))
    = Raise (ValueError ("distance cannot be greater than 500" +:+ newline))
  ∧ Filters.check (with_limit None (with_distance (Some 500) small_adoptable)) = Ok tt
  ∧ Filters.check (with_limit (Some 101) (with_distance None small_adoptable))
    = Raise (ValueError ("results per page cannot be greater than 100" +:+ newline))
  ∧ Filters.check (with_limit (Some 100) (with_distance None small_adoptable)) = Ok tt.
Proof.
  assert (∀ d, d ≠ Distance → d ≠ Limit → violated small_adoptable d = false) as Hf.
  { intros d _ _. destruct d; reflexivity. }
  split; [exact Hf|].
  destruct (distance_and_limit_bounds small_adoptable Hf) as (_ & _ & H500 & _ & H100).
  split; [reflexivity|]. split; [exact H500|]. split; [reflexivity|exact H100].
Defined.

(** C5: a scalar value of size, gender, age or coat is validated exactly as
    the one-element collection holding it: same dict of incorrect values,
    same outcome of [_check_parameters]. *)
Theorem scalar_is_one_element_collection `{SetOrder} (v : string)
    (animal_types : option string) (size gender age coat : option multi)
    (status location : option string) (distance : option Z) (sort : option string)
    (limit : option Z) :
  (incorrect_values animal_types (Some (Scalar v)) gender age coat status location distance sort limit
   = incorrect_values animal_types (Some (Collection [v])) gender age coat status location distance sort limit
   ∧ _check_parameters animal_types (Some (Scalar v)) gender age coat status location distance sort limit
   = _check_parameters animal_types (Some (Collection [v])) gender age coat status location distance sort limit)
  ∧ (incorrect_values animal_types size (Some (Scalar v)) age coat status location distance sort limit
   = incorrect_values animal_types size (Some (Collection [v])) age coat status location distance sort limit
   ∧ _check_parameters animal_types size (Some (Scalar v)) age coat status location distance sort limit
   = _check_parameters animal_types size (Some (Collection [v])) age coat status location distance sort limit)
  ∧ (incorrect_values animal_types size gender (Some (Scalar v)) coat status location distance sort limit
   = incorrect_values animal_types size gender (Some (Collection [v])) coat status location distance sort limit
   ∧ _check_parameters animal_types size gender (Some (Scalar v)) coat status location distance sort limit
   = _check_parameters animal_types size gender (Some (Collection [v])) coat status location distance sort limit)
  ∧ (incorrect_values animal_types size gender age (Some (Scalar v)) status location distance sort limit
   = incorrect_values animal_types size gender age (Some (Collection [v])) status location distance sort limit
   ∧ _check_parameters animal_types size gender age (Some (Scalar v)) status location distance sort limit
   = _check_parameters animal_types size gender age (Some (Collection [v])) status location distance sort limit).
Proof.
  assert (as_list (Scalar v) = as_list (Collection [v])) as Heq by reflexivity.
  repeat split; unfold _check_parameters; rewrite !incorrect_values_unfold;
    unfold check_several; rewrite ?Heq; reflexivity.
Qed.

(** C6: when validation passes, [_parameters] returns a mapping whose keys
    are wire names, each present exactly when its argument is not [None];
    [results_per_page] travels under the key [limit]. *)
Theorem parameters_wire_mapping `{SetOrder} (k : Params.kwargs) :
  Filters.check (params_filters k) = Ok tt →
  ∃ m, _parameters k = Ok m
    ∧ m !! "animal" = Params.animal k
    ∧ m !! "breed" = Params.breed k
    ∧ m !! "size" = of_multi <$> Params.size k
    ∧ m !! "gender" = of_multi <$> Params.gender k
    ∧ m !! "age" = of_multi <$> Params.age k
    ∧ m !! "color" = Params.color k
    ∧ m !! "coat" = of_multi <$> Params.coat k
    ∧ m !! "animal_type" = PStr <$> Params.animal_type k
    ∧ m !! "location" = PStr <$> Params.location k
    ∧ m !! "distance" = PInt <$> Params.distance k
    ∧ m !! "state" = Params.state k
    ∧ m !! "country" = Params.country k
    ∧ m !! "query" = Params.query k
    ∧ m !! "sort" = PStr <$> Params.sort k
    ∧ m !! "name" = Params.name k
    ∧ m !! "animal_id" = Params.animal_id k
    ∧ m !! "organization_id" = Params.organization_id k
    ∧ m !! "status" = PStr <$> Params.status k
    ∧ m !! "limit" = PInt <$> Params.results_per_page k
    ∧ m !! "page" = PInt <$> Params.page k
    ∧ m !! "results_per_page" = None
    ∧ (∀ key, is_Some (m !! key) → key ∈ wire_keys).
Proof.
  intros Hc. exists (omap id (args k)). split; [by apply parameters_ok|].
  assert (∀ key v, args k !! key = Some v → omap id (args k) !! key = v) as Hl.
  { intros key v Hv. by rewrite lookup_omap, Hv. }
  repeat (split; [apply Hl; unfold args; by vm_compute|]).
  split.
  - rewrite lookup_omap. unfold args. by vm_compute.
  - intros key [v Hv]. rewrite lookup_omap in Hv.
    destruct (args k !! key) as [o|] eqn:Hk; [|done].
    apply elem_of_list_to_map_2 in Hk.
    apply (list_elem_of_fmap_2 fst) in Hk. exact Hk.
Qed.

Lemma parameters_wire_mapping_witness :
  Filters.check (params_filters fifty_per_page) = Ok tt
  ∧ ∃ m, _parameters fifty_per_page = Ok m ∧ m !! "limit" = Some (PInt 50) ∧ m !! "status" = None.
Proof.
  split; [reflexivity|].
  destruct (parameters_wire_mapping fifty_per_page eq_refl)
    as (m & Hm & _ & _ & _ & _ & _ & _ & _ & _ & _ & _ & _ & _ & _ & _ & _ & _ & _ & Hs & Hl & _).
  exists m. split; [exact Hm|]. split; [exact Hl|exact Hs].
Defined.

(** C7: a lookup by identifier issues one request per identifier and no
    other; one identifier yields that record, not in a list; a collection of
    identifiers yields the list of their records, in the order given. *)
Theorem lookup_by_identifier `{SetOrder} `{Remote} (self : Petfinder) (w : world) :
  (∀ a x r,
      Animals.animal_id a = Some (OneId x) → Animals.return_df a = false →
      server (entity_request self "animals/" x) = Some (Entity r) →
      animals self a w
      = (Ok (Dict "animals" (One r)), after w [entity_request self "animals/" x] []))
  ∧ (∀ a xs rs,
      Animals.animal_id a = Some (ManyIds xs) → Animals.return_df a = false →
      Forall2 (λ x r, server (entity_request self "animals/" x) = Some (Entity r)) xs rs →
      animals self a w
      = (Ok (Dict "animals" (Many rs)), after w (map (entity_request self "animals/") xs) []))
  ∧ (∀ a x r,
      Organizations.organization_id a = Some (OneId x) → Organizations.return_df a = false →
      server (entity_request self "organizations/" x) = Some (Entity r) →
      organizations self a w
      = (Ok (Dict "organizations" (One r)),
         after w [entity_request self "organizations/" x] []))
  ∧ (∀ a xs rs,
      Organizations.organization_id a = Some (ManyIds xs) → Organizations.return_df a = false →
      Forall2 (λ x r, server (entity_request self "organizations/" x) = Some (Entity r)) xs rs →
      organizations self a w
      = (Ok (Dict "organizations" (Many rs)),
         after w (map (entity_request self "organizations/") xs) [])).
Proof.
  repeat split.
  - intros a x r Hid Hdf Hs.
    rewrite (animals_by_id self a _ w Hid), (lookup_one _ _ _ x r w Hs).
    unfold returned. by rewrite Hdf.
  - intros a xs rs Hid Hdf Hs.
    rewrite (animals_by_id self a _ w Hid), (lookup_many _ _ _ xs rs w Hs).
    unfold returned. by rewrite Hdf.
  - intros a x r Hid Hdf Hs.
    rewrite (organizations_by_id self a _ w Hid), (lookup_one _ _ _ x r w Hs).
    unfold returned. by rewrite Hdf.
  - intros a xs rs Hid Hdf Hs.
    rewrite (organizations_by_id self a _ w Hid), (lookup_many _ _ _ xs rs w Hs).
    unfold returned. by rewrite Hdf.
Qed.

Lemma lookup_by_identifier_witness :
  @animals insertion_order two_pages client (animals_by (OneId (IdInt 7))) fresh
  = (Ok (@Dict two_pages "animals" (One "record at http://api.petfinder.com/v2/animals/7")),
     after fresh [entity_request client "animals/" (IdInt 7)] [])
  ∧ @organizations insertion_order two_pages client
      (organizations_by (ManyIds [IdStr "NJ333"; IdStr "CA12"])) fresh
  = (Ok (@Dict two_pages "organizations"
           (Many ["record at http://api.petfinder.com/v2/organizations/NJ333";
                  "record at http://api.petfinder.com/v2/organizations/CA12"])),
     after fresh (map (entity_request client "organizations/") [IdStr "NJ333"; IdStr "CA12"]) []).
Proof.
  destruct (@lookup_by_identifier insertion_order two_pages client fresh)
    as (H1 & _ & _ & H4).
  split.
  - apply H1; reflexivity.
  - apply H4; [reflexivity|reflexivity|].
    repeat constructor.
Defined.

(** C8: when a filter does not pass validation, a search raises the
    aggregated [ValueError] and leaves the world as it was: no request is
    issued, nothing is printed. *)
Theorem validation_precedes_requests `{SetOrder} `{Remote} (self : Petfinder) (w : world) :
  (∀ a, Animals.animal_id a = None →
        (∃ d, violated (animals_filters a) d = true) →
        animals self a w = (Raise (ValueError (aggregated (animals_filters a))), w))
  ∧ (∀ a, Organizations.organization_id a = None →
        (∃ d, violated (organizations_filters a) d = true) →
        organizations self a w
        = (Raise (ValueError (aggregated (organizations_filters a))), w)).
Proof.
  split; intros a Hid Hv.
  - apply animals_invalid; [done|]. by apply check_violated.
  - apply organizations_invalid; [done|]. by apply check_violated.
Qed.

Lemma validation_precedes_requests_witness :
  @animals insertion_order two_pages client animals_huge fresh
  = (Raise (ValueError
       ("sizes {'huge'} are not valid. Sizes must be of the following: ('small', 'medium', 'large', 'xlarge')"
        +:+ newline)), fresh)
  ∧ @organizations insertion_order two_pages client organizations_far fresh
  = (Raise (ValueError ("distance cannot be greater than 500" +:+ newline)), fresh).
Proof.
  destruct (@validation_precedes_requests insertion_order two_pages client fresh) as [Ha Ho].
  split.
  - apply (Ha animals_huge); [reflexivity|]. exists Size. reflexivity.
  - apply (Ho organizations_far); [reflexivity|]. exists Distance. reflexivity.
Defined.

(** C9: a location passes validation exactly when it is one of the three
    format tags; any other string is recorded under the key [location] and
    makes [_check_parameters] raise. *)
Theorem location_format_tags `{SetOrder} (f : Filters.t) (loc : string) :
  (loc ∈ ["city,state"; "latitude,longitude"; "postal code"] →
     "location" ∉ (Filters.errors (with_location (Some loc) f)).*1)
  ∧ (loc ∉ ["city,state"; "latitude,longitude"; "postal code"] →
     ("location", location_message loc) ∈ Filters.errors (with_location (Some loc) f)
     ∧ is_validation_error (Filters.check (with_location (Some loc) f)) = true)
  ∧ ((∀ d, d ≠ Location → violated f d = false) →
     (Filters.check (with_location (Some loc) f) = Ok tt
      ↔ loc ∈ ["city,state"; "latitude,longitude"; "postal code"])).
Proof.
  assert (violated (with_location (Some loc) f) Location
          = negb (bool_decide (loc ∈ ["city,state"; "latitude,longitude"; "postal code"])))
    as Hloc by (by rewrite violated_location).
  split; [|split].
  - intros Hin Hk. apply (errors_key _ Location) in Hk.
    rewrite Hloc, bool_decide_eq_true_2 in Hk by done. discriminate Hk.
  - intros Hnin.
    assert (violated (with_location (Some loc) f) Location = true) as Hv.
    { by rewrite Hloc, bool_decide_eq_false_2. }
    split.
    + apply (errors_violated _ Location) in Hv. exact Hv.
    + rewrite check_violated; [done|]. by exists Location.
  - intros Hf. rewrite check_ok_iff. split.
    + intros Hv. specialize (Hv Location). rewrite Hloc in Hv.
      apply negb_false_iff, bool_decide_eq_true in Hv. exact Hv.
    + intros Hin d. destruct (decide (d = Location)) as [->|Hd].
      * by rewrite Hloc, bool_decide_eq_true_2.
      * rewrite <- (Hf d Hd). by destruct d.
Qed.

Lemma location_format_tags_witness :
  Filters.check (with_location (Some "city,state") small_adoptable) = Ok tt
  ∧ is_validation_error (Filters.check (with_location (Some "Seattle, WA") small_adoptable)) = true
  ∧ is_validation_error (Filters.check (with_location (Some "98101") small_adoptable)) = true.
Proof.
  split.
  - destruct (location_format_tags small_adoptable "city,state") as (_ & _ & Hi).
    apply Hi; [intros d _; by destruct d|]. by left.
  - split.
    + destruct (location_format_tags small_adoptable "Seattle, WA") as (_ & Hn & _).
      apply Hn. apply (bool_decide_unpack _). vm_compute. exact I.
    + destruct (location_format_tags small_adoptable "98101") as (_ & Hn & _).
      apply Hn. apply (bool_decide_unpack _). vm_compute. exact I.
Defined.

(** C10: with an identifier the other arguments are not looked at: two
    calls with the same identifier and [return_df] do the same whatever
    their filters, and the outcome is never a [ValueError]. *)
Theorem identifier_skips_validation `{SetOrder} `{Remote} (self : Petfinder) (w : world) :
  (∀ a a' x,
      Animals.animal_id a = Some x → Animals.animal_id a' = Some x →
      Animals.return_df a = Animals.return_df a' →
      animals self a w = animals self a' w)
  ∧ (∀ a x, Animals.animal_id a = Some x →
      is_validation_error (animals self a w).1 = false)
  ∧ (∀ a a' x,
      Organizations.organization_id a = Some x → Organizations.organization_id a' = Some x →
      Organizations.return_df a = Organizations.return_df a' →
      organizations self a w = organizations self a' w)
  ∧ (∀ a x, Organizations.organization_id a = Some x →
      is_validation_error (organizations self a w).1 = false).
Proof.
  repeat split.
  - intros a a' x Ha Ha' Hdf.
    by rewrite (animals_by_id self a x w Ha), (animals_by_id self a' x w Ha'), Hdf.
  - intros a x Ha. rewrite (animals_by_id self a x w Ha).
    pose proof (lookup_no_value_error self "animals/" "animal" x w) as Hn.
    by destruct (lookup self "animals/" "animal" x w) as [[v|e] w'].
  - intros a a' x Ha Ha' Hdf.
    by rewrite (organizations_by_id self a x w Ha), (organizations_by_id self a' x w Ha'), Hdf.
  - intros a x Ha. rewrite (organizations_by_id self a x w Ha).
    pose proof (lookup_no_value_error self "organizations/" "organization" x w) as Hn.
    by destruct (lookup self "organizations/" "organization" x w) as [[v|e] w'].
Qed.

Lemma identifier_skips_validation_witness :
  is_validation_error (Filters.check (animals_filters (animals_by (OneId (IdInt 7))))) = true
  ∧ is_validation_error
      (@animals insertion_order two_pages client (animals_by (OneId (IdInt 7))) fresh).1 = false
  ∧ is_validation_error
      (@organizations insertion_order two_pages client
         (organizations_by (OneId (IdStr "NJ333"))) fresh).1 = false.
Proof.
  destruct (@identifier_skips_validation insertion_order two_pages client fresh)
    as (_ & Ha & _ & Ho).
  split; [reflexivity|]. split.
  - apply (Ha _ (OneId (IdInt 7))). reflexivity.
  - apply (Ho _ (OneId (IdStr "NJ333"))). reflexivity.
Defined.

(* ===================================================================== *)
(** * Further properties of the code *)
(* ===================================================================== *)

Lemma pages_fetched_from_total n m :
  m ≤ n → pages_fetched n m = seqZ 1 (Z.max 1 (m - 1)) ∧ (m <? n + 1) = true.
Proof.
  intros Hn. unfold pages_fetched, page_bound, range.
  assert ((m <? n + 1) = true) as -> by (apply Z.ltb_lt; lia). split; [|done].
  rewrite (seqZ_cons 1) by lia. f_equal.
  destruct (decide (m ≤ 1)) as [Hm|Hm].
  - unfold seqZ. replace (Z.to_nat (m - 2)) with 0%nat by lia.
    by replace (Z.to_nat (Z.pred (Z.max 1 (m - 1)))) with 0%nat by lia.
  - f_equal; lia.
Qed.

Lemma pages_fetched_nonpositive n m :
  n ≤ 0 → pages_fetched n m = [1].
Proof.
  intros Hn. unfold pages_fetched, page_bound, range. f_equal.
  destruct (m <? n + 1) eqn:E.
  - apply Z.ltb_lt in E. unfold seqZ. by replace (Z.to_nat (m - 2)) with 0%nat by lia.
  - unfold seqZ. by replace (Z.to_nat (n + 1 - 2)) with 0%nat by lia.
Qed.

Lemma parameters_value `{SetOrder} (k : Params.kwargs) (q : gmap string pyval) :
  _parameters k = Ok q → q = omap id (args k).
Proof.
  unfold _parameters. destruct (_check_parameters _ _ _ _ _ _ _ _ _ _) as [[]|e]; [|done].
  intros Heq. symmetry.
  exact (f_equal (λ r, match r with Ok x => x | Raise _ => q end) Heq).
Qed.

Lemma animals_query_no_page `{SetOrder} a q :
  _parameters (animals_query a) = Ok q → q !! "page" = None.
Proof.
  intros ->%parameters_value. rewrite lookup_omap. unfold args. by vm_compute.
Qed.

Lemma organizations_query_no_page `{SetOrder} a q :
  _parameters (organizations_query a) = Ok q → q !! "page" = None.
Proof.
  intros ->%parameters_value. rewrite lookup_omap. unfold args. by vm_compute.
Qed.

Section MorePaging.
Context `{SetOrder} `{Remote} (self : Petfinder).


(** X2: when at least as many pages are asked for as the server has
    ([total_pages <= n]), the calls request pages 1 to [total_pages - 1]
    (page 1 alone when [total_pages <= 2]), return their items and print
    the notice that names [total_pages]. *)
Theorem pages_from_total (items : Z → list record) (q : gmap string pyval) (n m : Z)
    (w : world) :
  m ≤ n →
  (∀ a, Animals.animal_id a = None → Animals.pages a = Some n →
        Animals.return_df a = false → _parameters (animals_query a) = Ok q →
        (∀ p, 1 ≤ p ≤ Z.max 1 (m - 1) →
              server (page_request self "animals/" q p) = Some (Page (items p) m)) →
        animals self a w =
        (Ok (Dict "animals" (Many (concat (map items (seqZ 1 (Z.max 1 (m - 1))))))),
         after w (map (page_request self "animals/" q) (seqZ 1 (Z.max 1 (m - 1))))
           [notice m]))
  ∧ (∀ a, Organizations.organization_id a = None → Organizations.pages a = Some n →
        Organizations.return_df a = false → _parameters (organizations_query a) = Ok q →
        (∀ p, 1 ≤ p ≤ Z.max 1 (m - 1) →
              server (page_request self "organizations/" q p) = Some (Page (items p) m)) →
        organizations self a w =
        (Ok (Dict "organizations" (Many (concat (map items (seqZ 1 (Z.max 1 (m - 1))))))),
         after w (map (page_request self "organizations/" q) (seqZ 1 (Z.max 1 (m - 1))))
           [notice m])).
Proof.
  intros Hn. destruct (pages_fetched_from_total n m Hn) as [Hf Hlt]. split.
  - intros a Hid Hp Hdf Hq Hs.
    rewrite (animals_paged self items a q n m w Hid Hp Hdf Hq), Hf, Hlt; [done|].
    rewrite Hf. intros p Hin. apply elem_of_seqZ in Hin. apply Hs. lia.
  - intros a Hid Hp Hdf Hq Hs.
    rewrite (organizations_paged self items a q n m w Hid Hp Hdf Hq), Hf, Hlt; [done|].
    rewrite Hf. intros p Hin. apply elem_of_seqZ in Hin. apply Hs. lia.
Qed.

(** X3: without [pages] the calls issue one request, whose query is the
    assembled one and has no [page] entry, return the items of the answer
    and print nothing. *)
Theorem single_fetch_without_pages (items : list record) (q : gmap string pyval) (m : Z)
    (w : world) :
  (∀ a, Animals.animal_id a = None → Animals.pages a = None →
        Animals.return_df a = false → _parameters (animals_query a) = Ok q →
        server (query_request self "animals/" q) = Some (Page items m) →
        animals self a w
        = (Ok (Dict "animals" (Many items)), after w [query_request self "animals/" q] [])
        ∧ q !! "page" = None)
  ∧ (∀ a, Organizations.organization_id a = None → Organizations.pages a = None →
        Organizations.return_df a = false → _parameters (organizations_query a) = Ok q →
        server (query_request self "organizations/" q) = Some (Page items m) →
        organizations self a w
        = (Ok (Dict "organizations" (Many items)),
           after w [query_request self "organizations/" q] [])
        ∧ q !! "page" = None).
Proof.
  split.
  - intros a Hid Hp Hdf Hq Hs. split; [|by apply (animals_query_no_page a)].
    rewrite (animals_by_search self a q w Hid Hq), Hp,
      (search_single self "animals/" "animals" q items m w Hs).
    unfold returned, noticed. by rewrite Hdf.
  - intros a Hid Hp Hdf Hq Hs. split; [|by apply (organizations_query_no_page a)].
    rewrite (organizations_by_search self a q w Hid Hq), Hp,
      (search_single self "organizations/" "organizations" q items m w Hs).
    unfold returned, noticed. by rewrite Hdf.
Qed.

(** X4: with [pages] zero or negative the calls still request page 1, and
    only page 1, and return its items; the notice is printed exactly when
    [total_pages <= pages]. *)
Theorem nonpositive_pages_fetch_page_1 (items : list record) (q : gmap string pyval)
    (n m : Z) (w : world) :
  n ≤ 0 →
  (∀ a, Animals.animal_id a = None → Animals.pages a = Some n →
        Animals.return_df a = false → _parameters (animals_query a) = Ok q →
        server (page_request self "animals/" q 1) = Some (Page items m) →
        animals self a w =
        (Ok (Dict "animals" (Many items)),
         after w [page_request self "animals/" q 1] (if m <? n + 1 then [notice m] else [])))
  ∧ (∀ a, Organizations.organization_id a = None → Organizations.pages a = Some n →
        Organizations.return_df a = false → _parameters (organizations_query a) = Ok q →
        server (page_request self "organizations/" q 1) = Some (Page items m) →
        organizations self a w =
        (Ok (Dict "organizations" (Many items)),
         after w [page_request self "organizations/" q 1]
           (if m <? n + 1 then [notice m] else []))).
Proof.
  intros Hn. pose proof (pages_fetched_nonpositive n m Hn) as Hf. split.
  - intros a Hid Hp Hdf Hq Hs.
    rewrite (animals_paged self (λ _, items) a q n m w Hid Hp Hdf Hq), Hf.
    + simpl. by rewrite app_nil_r.
    + rewrite Hf. by intros p ->%list_elem_of_singleton.
  - intros a Hid Hp Hdf Hq Hs.
    rewrite (organizations_paged self (λ _, items) a q n m w Hid Hp Hdf Hq), Hf.
    + simpl. by rewrite app_nil_r.
    + rewrite Hf. by intros p ->%list_elem_of_singleton.
Qed.

End MorePaging.


Lemma pages_from_total_witness :
  2 ≤ 5
  ∧ @organizations insertion_order two_pages client (organizations_pages 5) fresh
    = (Ok (@Dict two_pages "organizations" (Many ["rex"; "tom"])),
       after fresh [page_request client "organizations/" default_query 1] [notice 2]).
Proof.
  split; [lia|].
  destruct (@pages_from_total insertion_order two_pages client two_pages_items
              default_query 5 2 fresh ltac:(lia)) as [_ Ho].
  rewrite (Ho (organizations_pages 5)); try reflexivity.
  intros p Hp. assert (p = 1) as -> by lia. reflexivity.
Defined.

Lemma single_fetch_without_pages_witness :
  @animals insertion_order two_pages client animals_first_page fresh
  = (Ok (@Dict two_pages "animals" (Many ["rex"; "tom"])),
     after fresh [query_request client "animals/" default_query] [])
  ∧ default_query !! "page" = None.
Proof.
  destruct (@single_fetch_without_pages insertion_order two_pages client
              ["rex"; "tom"] default_query 2 fresh) as [Ha _].
  apply (Ha animals_first_page); reflexivity.
Defined.

Lemma nonpositive_pages_fetch_page_1_witness :
  0 ≤ 0
  ∧ @animals insertion_order two_pages client (animals_pages 0) fresh
    = (Ok (@Dict two_pages "animals" (Many ["rex"; "tom"])),
       after fresh [page_request client "animals/" default_query 1] []).
Proof.
  split; [lia|].
  destruct (@nonpositive_pages_fetch_page_1 insertion_order two_pages client
              ["rex"; "tom"] default_query 0 2 fresh ltac:(lia)) as [Ha _].
  rewrite (Ha (animals_pages 0)); reflexivity.
Defined.

Section Failure.
Context `{SetOrder} `{Remote} (self : Petfinder) (path plural : string)
  (q0 : gmap string pyval).

Lemma search_loop_fails (items : Z → list record) (m : Z) ps p rest acc q w :
  (∀ x, x ∈ ps → server (page_request self path q0 x) = Some (Page (items x) m)) →
  server (page_request self path q0 p) = None →
  for_each (ps ++ p :: rest) (search_body self path plural)
    (acc, <["page" := PInt q]> q0) w
  = (Raise RequestException, after w (map (page_request self path q0) (ps ++ [p])) []).
Proof.
  revert acc q w. induction ps as [|x ps IH]; intros acc q w Hs Hp.
  - change ([] ++ p :: rest) with (p :: rest).
    by rewrite for_each_cons, search_body_eq, Hp.
  - change ((x :: ps) ++ p :: rest) with (x :: (ps ++ p :: rest)).
    rewrite for_each_cons, search_body_eq, (Hs x) by (by left).
    rewrite IH; [|intros y Hy; apply Hs; by right|done].
    by rewrite after_after.
Qed.

Lemma search_fails (items : Z → list record) n m ps p rest w :
  pages_fetched n m = ps ++ p :: rest →
  (∀ x, x ∈ ps → server (page_request self path q0 x) = Some (Page (items x) m)) →
  server (page_request self path q0 p) = None →
  search self path plural q0 (Some n) w
  = (Raise RequestException, after w (map (page_request self path q0) (ps ++ [p])) []).
Proof.
  intros Hf Hs Hp. rewrite search_paged_eq.
  destruct ps as [|x ps].
  - unfold pages_fetched in Hf. injection Hf as <- _. by rewrite Hp.
  - unfold pages_fetched in Hf. injection Hf as <- Hr.
    rewrite (Hs 1) by (by left). rewrite Hr.
    rewrite (search_loop_fails items m ps p rest (items 1) 1); [|intros y Hy; apply Hs; by right|done].
    by rewrite after_after.
Qed.
End Failure.

Section Aborts.
Context `{SetOrder} `{Remote} (self : Petfinder).

Lemma lookup_loop_fails path singular xs rs x ys acc w :
  Forall2 (λ x r, server (entity_request self path x) = Some (Entity r)) xs rs →
  server (entity_request self path x) = None →
  for_each (xs ++ x :: ys) (lookup_body self path singular) acc w
  = (Raise RequestException, after w (map (entity_request self path) (xs ++ [x])) []).
Proof.
  intros HF Hx. revert acc w. induction HF as [|y r xs rs Hy HF IH]; intros acc w.
  - change ([] ++ x :: ys) with (x :: ys). by rewrite for_each_cons, lookup_body_eq, Hx.
  - change ((y :: xs) ++ x :: ys) with (y :: (xs ++ x :: ys)).
    rewrite for_each_cons, lookup_body_eq, Hy, IH. by rewrite after_after.
Qed.

(** X5: when the transport fails on a page the loop reaches, the call
    raises the transport's exception: the items of the pages fetched before
    are not returned, nothing is printed (no notice either), and no later
    page is requested. *)
Theorem page_failure_aborts (items : Z → list record) (q : gmap string pyval) (n m : Z)
    (ps : list Z) (p : Z) (rest : list Z) (w : world) :
  pages_fetched n m = ps ++ p :: rest →
  (∀ a, Animals.animal_id a = None → Animals.pages a = Some n →
        _parameters (animals_query a) = Ok q →
        (∀ x, x ∈ ps → server (page_request self "animals/" q x) = Some (Page (items x) m)) →
        server (page_request self "animals/" q p) = None →
        animals self a w
        = (Raise RequestException,
           after w (map (page_request self "animals/" q) (ps ++ [p])) []))
  ∧ (∀ a, Organizations.organization_id a = None → Organizations.pages a = Some n →
        _parameters (organizations_query a) = Ok q →
        (∀ x, x ∈ ps →
              server (page_request self "organizations/" q x) = Some (Page (items x) m)) →
        server (page_request self "organizations/" q p) = None →
        organizations self a w
        = (Raise RequestException,
           after w (map (page_request self "organizations/" q) (ps ++ [p])) [])).
Proof.
  intros Hf. split.
  - intros a Hid Hp Hq Hs Hfail.
    by rewrite (animals_by_search self a q w Hid Hq), Hp,
      (search_fails self "animals/" "animals" q items n m ps p rest w Hf Hs Hfail).
  - intros a Hid Hp Hq Hs Hfail.
    by rewrite (organizations_by_search self a q w Hid Hq), Hp,
      (search_fails self "organizations/" "organizations" q items n m ps p rest w Hf Hs Hfail).
Qed.

(** X6: a lookup by a collection of identifiers stops at the first
    identifier whose request fails in the transport: the call raises, the
    records fetched before are not returned, and the identifiers after it
    are never requested. *)
Theorem lookup_failure_aborts (xs : list ident) (rs : list record) (x : ident)
    (ys : list ident) (w : world) :
  (∀ a, Animals.animal_id a = Some (ManyIds (xs ++ x :: ys)) →
        Forall2 (λ x r, server (entity_request self "animals/" x) = Some (Entity r)) xs rs →
        server (entity_request self "animals/" x) = None →
        animals self a w
        = (Raise RequestException,
           after w (map (entity_request self "animals/") (xs ++ [x])) []))
  ∧ (∀ a, Organizations.organization_id a = Some (ManyIds (xs ++ x :: ys)) →
        Forall2 (λ x r, server (entity_request self "organizations/" x) = Some (Entity r))
          xs rs →
        server (entity_request self "organizations/" x) = None →
        organizations self a w
        = (Raise RequestException,
           after w (map (entity_request self "organizations/") (xs ++ [x])) [])).
Proof.
  split.
  - intros a Hid HF Hx.
    by rewrite (animals_by_id self a _ w Hid), lookup_many_eq,
      (lookup_loop_fails "animals/" "animal" xs rs x ys [] w HF Hx).
  - intros a Hid HF Hx.
    by rewrite (organizations_by_id self a _ w Hid), lookup_many_eq,
      (lookup_loop_fails "organizations/" "organization" xs rs x ys [] w HF Hx).
Qed.

End Aborts.

Lemma page_failure_aborts_witness :
  pages_fetched 3 3 = [1] ++ 2 :: []
  ∧ @animals insertion_order drops_page_2 client (animals_pages 3) fresh
    = (Raise RequestException,
       after fresh [page_request client "animals/" default_query 1;
                    page_request client "animals/" default_query 2] []).
Proof.
  split; [reflexivity|].
  destruct (@page_failure_aborts insertion_order drops_page_2 client
              (λ _, ["rex"; "tom"]) default_query 3 3 [1] 2 [] fresh eq_refl) as [Ha _].
  apply (Ha (animals_pages 3)); try reflexivity.
  intros x ->%list_elem_of_singleton. reflexivity.
Defined.

Lemma lookup_failure_aborts_witness :
  @animals insertion_order two_animals client
     (animals_ids ([IdInt 7] ++ IdInt 8 :: [IdInt 9])) fresh
  = (Raise RequestException,
     after fresh [entity_request client "animals/" (IdInt 7);
                  entity_request client "animals/" (IdInt 8)] []).
Proof.
  destruct (@lookup_failure_aborts insertion_order two_animals client
              [IdInt 7] ["rex"] (IdInt 8) [IdInt 9] fresh) as [Ha _].
  apply (Ha (animals_ids ([IdInt 7] ++ IdInt 8 :: [IdInt 9]))); try reflexivity.
  repeat constructor.
Defined.

Section Grows.
Context `{Remote} (P : request → Prop).

Lemma grows_ret {A} (a : A) : grows P (mret a).
Proof. intros w. exists [], []. by rewrite after_nil. Qed.

Lemma grows_lift {A} (r : result A) : grows P (lift r).
Proof. intros w. exists [], []. by rewrite after_nil. Qed.

Lemma grows_print line : grows P (print line).
Proof. intros w. exists [], [line]. split; [|done]. unfold print, after. simpl. by rewrite app_nil_r. Qed.

Lemma grows_get u h p :
  P {| url := u; headers := h; params := p |} → grows P (requests_get u h p).
Proof.
  intros HP w. exists [{| url := u; headers := h; params := p |}], [].
  rewrite requests_get_eq. split; [done|]. by constructor.
Qed.

Lemma grows_bind {A B} (m : M A) (f : A → M B) :
  grows P m → (∀ a, grows P (f a)) → grows P (m ≫= f).
Proof.
  intros Hm Hf w. destruct (Hm w) as (rs & ls & Hw & Hrs).
  unfold mbind, M_bind. destruct (m w) as [[a|e] w'] eqn:Hmw; simpl in Hw; subst w'.
  - destruct (Hf a (after w rs ls)) as (rs' & ls' & Hw' & Hrs').
    exists (rs ++ rs'), (ls ++ ls'). rewrite Hw', after_after. split; [done|].
    by apply Forall_app.
  - by exists rs, ls.
Qed.

Lemma grows_for_each {A S} (xs : list A) (body : S → A → M S) (s : S) :
  (∀ s x, grows P (body s x)) → grows P (for_each xs body s).
Proof.
  intros Hb. revert s. induction xs as [|x xs IH]; intros s.
  - apply grows_ret.
  - simpl. apply grows_bind; [apply Hb|apply IH].
Qed.

Lemma grows_lookup self path singular x :
  (∀ i, P (entity_request self path i)) → grows P (lookup self path singular x).
Proof.
  intros HP. destruct x as [i|ids]; simpl.
  - apply grows_bind; [apply grows_get, HP|]. intros r.
    apply grows_bind; [apply grows_lift|]. intros x. apply grows_ret.
  - apply grows_bind; [|intros; apply grows_ret].
    apply grows_for_each. intros s i.
    apply grows_bind; [apply grows_get, HP|]. intros r.
    apply grows_bind; [apply grows_lift|]. intros x. apply grows_ret.
Qed.

Lemma grows_search self path plural q pages :
  (∀ q, P (query_request self path q)) → grows P (search self path plural q pages).
Proof.
  intros HP. destruct pages as [n|]; unfold search.
  - apply grows_bind; [apply grows_get, HP|]. intros r.
    apply grows_bind; [apply grows_lift|]. intros items.
    apply grows_bind; [apply grows_lift|]. intros m.
    destruct (m <? n + 1).
    + apply grows_bind; [|intros [??]; apply grows_ret].
      apply grows_for_each. intros [a p] x.
      apply grows_bind; [apply grows_get, HP|]. intros r'.
      apply grows_bind; [apply grows_lift|]. intros ?. apply grows_ret.
    + apply grows_bind; [|intros [??]; apply grows_ret].
      apply grows_for_each. intros [a p] x.
      apply grows_bind; [apply grows_get, HP|]. intros r'.
      apply grows_bind; [apply grows_lift|]. intros ?. apply grows_ret.
  - apply grows_bind; [apply grows_get, HP|]. intros r.
    apply grows_bind; [apply grows_lift|]. intros items. apply grows_ret.
Qed.

Lemma grows_finish key v df warning m : grows P (finish key v df warning m).
Proof.
  unfold finish. apply grows_bind; [|intros; apply grows_ret].
  destruct warning; [apply grows_print|apply grows_ret].
Qed.

Lemma grows_animals `{SetOrder} self a :
  (∀ i, P (entity_request self "animals/" i)) →
  (∀ q, P (query_request self "animals/" q)) →
  grows P (animals self a).
Proof.
  intros HPe HPq. unfold animals.
  apply grows_bind; [|intros [[??]?]; apply grows_finish].
  destruct (Animals.animal_id a).
  - apply grows_bind; [by apply grows_lookup|intros; apply grows_ret].
  - apply grows_bind; [apply grows_lift|]. intros q. by apply grows_search.
Qed.

Lemma grows_organizations `{SetOrder} self a :
  (∀ i, P (entity_request self "organizations/" i)) →
  (∀ q, P (query_request self "organizations/" q)) →
  grows P (organizations self a).
Proof.
  intros HPe HPq. unfold organizations.
  apply grows_bind; [|intros [[??]?]; apply grows_finish].
  destruct (Organizations.organization_id a).
  - apply grows_bind; [by apply grows_lookup|intros; apply grows_ret].
  - apply grows_bind; [apply grows_lift|]. intros q. by apply grows_search.
Qed.
End Grows.

Lemma prefix_append (a b c : string) : String.prefix a ((a +:+ b) +:+ c) = true.
Proof. rewrite append_assoc. apply prefix_app. Qed.

Lemma authorized_entity self path i : authorized self (entity_request self path i) = true.
Proof.
  unfold authorized, entity_request, entity_url, urljoin. cbn [headers url].
  rewrite bool_decide_eq_true_2 by done. apply prefix_append.
Qed.

Lemma authorized_query self path q : authorized self (query_request self path q) = true.
Proof.
  unfold authorized, query_request, urljoin. cbn [headers url].
  rewrite bool_decide_eq_true_2 by done. apply prefix_app.
Qed.

Lemma forallb_intro {A} (f : A → bool) (l : list A) :
  Forall (λ x, f x = true) l → forallb f l = true.
Proof. induction 1 as [|x l Hx _ IH]; [done|]. simpl. by rewrite Hx, IH. Qed.

(** X7: whatever the arguments and whatever the server answers, [animals]
    and [organizations] only add to the requests issued and the lines
    printed, and every request they issue goes to an address under
    [self.host] with the one header [Authorization: Bearer <self.auth>]. *)
Theorem requests_are_authorized `{SetOrder} `{Remote} (self : Petfinder) (w : world) :
  (∀ a, ∃ rs ls, (animals self a w).2 = after w rs ls
                 ∧ forallb (authorized self) rs = true)
  ∧ (∀ a, ∃ rs ls, (organizations self a w).2 = after w rs ls
                   ∧ forallb (authorized self) rs = true).
Proof.
  split; intros a.
  - destruct (grows_animals (λ r, authorized self r = true) self a
                (authorized_entity self "animals/") (authorized_query self "animals/") w)
      as (rs & ls & Hw & Hrs).
    exists rs, ls. split; [done|]. by apply forallb_intro.
  - destruct (grows_organizations (λ r, authorized self r = true) self a
                (authorized_entity self "organizations/")
                (authorized_query self "organizations/") w)
      as (rs & ls & Hw & Hrs).
    exists rs, ls. split; [done|]. by apply forallb_intro.
Qed.

Lemma finish_packages `{Remote} (m : M (payload record * bool * Z)) (key : string) (w : world) :
  ∃ (r : result (payload record)) (w' : world), ∀ df,
    (x ← m; let '(v, warning, max_pages) := x in finish key v df warning max_pages) w
    = (result_map (returned key df) r, w').
Proof.
  unfold mbind, M_bind. destruct (m w) as [[[[v b] z]|e] w1].
  - exists (Ok v), (noticed b z w1). intros df. unfold finish, returned, noticed, result_map.
    destruct b, df; unfold mbind, M_bind, mret, M_ret, print, after; simpl;
      rewrite ?app_nil_r; by destruct w1.
  - exists (Raise e), w1. by intros df.
Qed.

(** X8: [return_df] changes nothing but the packaging of the result. For
    given other arguments, the call issues the same requests, prints the
    same lines and raises the same exception with [return_df=True] as with
    [return_df=False]; where the one returns the dict [{'animals': v}], the
    other returns [json_normalize(v)] of the same [v]. *)
Theorem return_df_only_packages `{SetOrder} `{Remote} (self : Petfinder) (w : world) :
  (∀ a, ∃ (r : result (payload record)) (w' : world), ∀ df,
      animals self (animals_return_df df a) w
      = (result_map (λ v, if df then DataFrame (json_normalize v) else Dict "animals" v) r, w'))
  ∧ (∀ a, ∃ (r : result (payload record)) (w' : world), ∀ df,
      organizations self (organizations_return_df df a) w
      = (result_map (λ v, if df then DataFrame (json_normalize v)
                          else Dict "organizations" v) r, w')).
Proof.
  split; intros a.
  - unfold animals, animals_return_df.
    cbn [Animals.animal_id Animals.animal_type Animals.breed Animals.size Animals.gender
         Animals.age Animals.color Animals.coat Animals.status Animals.name
         Animals.organization_id Animals.location Animals.distance Animals.sort
         Animals.pages Animals.results_per_page Animals.return_df].
    apply (finish_packages _ "animals" w).
  - unfold organizations, organizations_return_df.
    cbn [Organizations.organization_id Organizations.name Organizations.location
         Organizations.distance Organizations.state Organizations.country
         Organizations.query Organizations.sort Organizations.results_per_page
         Organizations.pages Organizations.return_df].
    apply (finish_packages _ "organizations" w).
Qed.

Lemma Permutation_short {A} (l l' : list A) : l ≡ₚ l' → (length l' ≤ 1)%nat → l = l'.
Proof.
  intros Hp Hl. destruct l' as [|x [|y l']]; simpl in Hl; [| |lia].
  - by apply Permutation_nil_r.
  - by apply Permutation_singleton_r.
Qed.

Lemma difference_iter_short (O1 O2 : SetOrder) (l acc : list string) :
  (length (list_difference (remove_dups l) acc) ≤ 1)%nat →
  @difference_iter O1 l acc = @difference_iter O2 l acc.
Proof.
  intros Hl.
  rewrite (Permutation_short _ _ (@difference_iter_perm O1 l acc) Hl).
  by rewrite (Permutation_short _ _ (@difference_iter_perm O2 l acc) Hl).
Qed.

Lemma dimension_message_short (O1 O2 : SetOrder) (f : Filters.t) (d : dimension) :
  (length (offending f d) ≤ 1)%nat →
  @dimension_message O1 f d = @dimension_message O2 f d.
Proof.
  unfold offending, dimension_message.
  destruct d; simpl; try done;
    match goal with |- context [Several ∘ elements <$> ?x] => destruct x as [m|] end;
    simpl; try done; intros Hl; f_equal; by apply difference_iter_short.
Qed.

Lemma aggregated_short (O1 O2 : SetOrder) (f : Filters.t) :
  (∀ d, (length (offending f d) ≤ 1)%nat) → @aggregated O1 f = @aggregated O2 f.
Proof.
  intros Hl. unfold aggregated.
  induction (List.filter (violated f) check_order) as [|d ds IH]; simpl; [done|].
  by rewrite IH, (dimension_message_short O1 O2 f d (Hl d)).
Qed.

(** X9: the iteration order of Python's sets (which changes with the hash
    seed) never decides whether [_check_parameters] raises, nor which keys
    [incorrect_values] gets; and when no filter holds more than one distinct
    unaccepted value, the outcome is the same under any two orders, message
    text included. *)
Theorem validation_independent_of_set_order (O1 O2 : SetOrder) (f : Filters.t) :
  is_validation_error (@Filters.check O1 f) = is_validation_error (@Filters.check O2 f)
  ∧ @error_keys O1 f = @error_keys O2 f
  ∧ ((∀ d, (length (offending f d) ≤ 1)%nat) → @Filters.check O1 f = @Filters.check O2 f).
Proof.
  split; [|split].
  - rewrite !check_spec. by destruct (forallb _ _).
  - unfold error_keys. rewrite !errors_spec. unfold entries.
    rewrite <- !list_fmap_compose. done.
  - intros Hl. rewrite !check_spec. by rewrite (aggregated_short O1 O2 f Hl).
Qed.

Lemma validation_independent_of_set_order_witness :
  (∀ d, (length (offending huge_and_far d) ≤ 1)%nat)
  ∧ @Filters.check insertion_order huge_and_far = @Filters.check reverse_order huge_and_far.
Proof.
  assert (∀ d, (length (offending huge_and_far d) ≤ 1)%nat) as Hl.
  { intros d. destruct d; vm_compute; lia. }
  split; [exact Hl|].
  exact (proj2 (proj2 (validation_independent_of_set_order insertion_order reverse_order
                         huge_and_far)) Hl).
Defined.

(** With two unaccepted sizes, the message does depend on the order. *)
Example message_depends_on_set_order :
  @Filters.check insertion_order huge_and_tiny ≠ @Filters.check reverse_order huge_and_tiny.
Proof. vm_compute. discriminate. Qed.

Section Wire.
Context `{SetOrder} `{Remote} (self : Petfinder).

Lemma search_none path plural q w :
  ∃ r : result (list record),
    search self path plural q None w
    = (match r with Ok items => Ok (Many items, false, 0) | Raise e => Raise e end,
       after w [query_request self path q] []).
Proof.
  unfold search. unfold mbind at 1. unfold M_bind. rewrite requests_get_eq.
  fold (query_request self path q).
  destruct (server (query_request self path q)) as [[r|items m]|].
  - by exists (Raise (KeyError plural)).
  - by exists (Ok items).
  - by exists (Raise RequestException).
Qed.

Lemma animals_search_requests a q w :
  Animals.animal_id a = None → Animals.pages a = None →
  _parameters (animals_query a) = Ok q →
  requests (animals self a w).2 = requests w ++ [query_request self "animals/" q].
Proof.
  intros Hid Hp Hq. rewrite (animals_by_search self a q w Hid Hq), Hp.
  destruct (search_none "animals/" "animals" q w) as [[items|e] ->]; done.
Qed.

Lemma organizations_search_requests a q w :
  Organizations.organization_id a = None → Organizations.pages a = None →
  _parameters (organizations_query a) = Ok q →
  requests (organizations self a w).2 = requests w ++ [query_request self "organizations/" q].
Proof.
  intros Hid Hp Hq. rewrite (organizations_by_search self a q w Hid Hq), Hp.
  destruct (search_none "organizations/" "organizations" q w) as [[items|e] ->]; done.
Qed.

Lemma args_lookup (k : Params.kwargs) key v :
  args k !! key = Some v → omap id (args k) !! key = v.
Proof. intros Hv. by rewrite lookup_omap, Hv. Qed.

Ltac listed_key H :=
  repeat (apply elem_of_cons in H as [H|H];
          [injection H as -> H; simpl in H;
           first [discriminate H | apply (bool_decide_unpack _); vm_compute; exact I]|]);
  by apply elem_of_nil in H.

Lemma animals_query_keys a key :
  is_Some (omap id (args (animals_query a)) !! key) → key ∈ animals_keys.
Proof.
  intros [v Hv]. rewrite lookup_omap in Hv.
  destruct (args (animals_query a) !! key) as [[v'|]|] eqn:Hk; try done.
  apply elem_of_list_to_map_2 in Hk.
  cbn [animals_query Params.animal Params.breed Params.size Params.gender Params.color
       Params.coat Params.animal_type Params.location Params.distance Params.state
       Params.country Params.query Params.sort Params.name Params.age Params.animal_id
       Params.organization_id Params.status Params.results_per_page Params.page] in Hk.
  listed_key Hk.
Qed.

Lemma organizations_query_keys a key :
  is_Some (omap id (args (organizations_query a)) !! key) → key ∈ organizations_keys.
Proof.
  intros [v Hv]. rewrite lookup_omap in Hv.
  destruct (args (organizations_query a) !! key) as [[v'|]|] eqn:Hk; try done.
  apply elem_of_list_to_map_2 in Hk.
  cbn [organizations_query Params.animal Params.breed Params.size Params.gender Params.color
       Params.coat Params.animal_type Params.location Params.distance Params.state
       Params.country Params.query Params.sort Params.name Params.age Params.animal_id
       Params.organization_id Params.status Params.results_per_page Params.page] in Hk.
  listed_key Hk.
Qed.

(** X10: a search without [pages] whose filters pass validation issues one
    request, to [animals/] (or [organizations/]), whatever the server
    answers. Its query holds each argument that is not [None] under the
    argument's own name, [results_per_page] under [limit], and nothing
    else: no [page], and none of the other endpoint's filters. *)
Theorem search_sends_supplied_filters (w : world) :
  (∀ a, Animals.animal_id a = None → Animals.pages a = None →
        Filters.check (animals_filters a) = Ok tt →
        ∃ q, requests (animals self a w).2 = requests w ++ [query_request self "animals/" q]
          ∧ q !! "animal_type" = PStr <$> Animals.animal_type a
          ∧ q !! "breed" = Animals.breed a
          ∧ q !! "size" = of_multi <$> Animals.size a
          ∧ q !! "gender" = of_multi <$> Animals.gender a
          ∧ q !! "age" = of_multi <$> Animals.age a
          ∧ q !! "color" = Animals.color a
          ∧ q !! "coat" = of_multi <$> Animals.coat a
          ∧ q !! "status" = PStr <$> Animals.status a
          ∧ q !! "name" = Animals.name a
          ∧ q !! "organization_id" = Animals.organization_id a
          ∧ q !! "location" = PStr <$> Animals.location a
          ∧ q !! "distance" = PInt <$> Animals.distance a
          ∧ q !! "sort" = PStr <$> Animals.sort a
          ∧ q !! "limit" = PInt <$> Animals.results_per_page a
          ∧ (∀ key, is_Some (q !! key) → key ∈ animals_keys))
  ∧ (∀ a, Organizations.organization_id a = None → Organizations.pages a = None →
        Filters.check (organizations_filters a) = Ok tt →
        ∃ q, requests (organizations self a w).2
             = requests w ++ [query_request self "organizations/" q]
          ∧ q !! "name" = Organizations.name a
          ∧ q !! "location" = PStr <$> Organizations.location a
          ∧ q !! "distance" = PInt <$> Organizations.distance a
          ∧ q !! "state" = Organizations.state a
          ∧ q !! "country" = Organizations.country a
          ∧ q !! "query" = Organizations.query a
          ∧ q !! "sort" = PStr <$> Organizations.sort a
          ∧ q !! "limit" = PInt <$> Organizations.results_per_page a
          ∧ (∀ key, is_Some (q !! key) → key ∈ organizations_keys)).
Proof.
  split.
  - intros a Hid Hp Hc. exists (omap id (args (animals_query a))).
    split; [apply (animals_search_requests a _ w Hid Hp), parameters_ok, Hc|].
    repeat (split; [apply args_lookup; unfold args; by vm_compute|]).
    apply animals_query_keys.
  - intros a Hid Hp Hc. exists (omap id (args (organizations_query a))).
    split; [apply (organizations_search_requests a _ w Hid Hp), parameters_ok, Hc|].
    repeat (split; [apply args_lookup; unfold args; by vm_compute|]).
    apply organizations_query_keys.
Qed.

End Wire.

Lemma search_sends_supplied_filters_witness :
  ∃ q, requests (@animals insertion_order two_pages client small_dogs fresh).2
       = requests fresh ++ [query_request client "animals/" q]
    ∧ q !! "animal_type" = Some (PStr "dog")
    ∧ q !! "size" = Some (PStr "small")
    ∧ q !! "limit" = Some (PInt 50)
    ∧ q !! "status" = None.
Proof.
  destruct (@search_sends_supplied_filters insertion_order two_pages client fresh) as [Ha _].
  destruct (Ha small_dogs eq_refl eq_refl eq_refl)
    as (q & Hr & Ht & _ & Hs & _ & _ & _ & _ & Hst & _ & _ & _ & _ & _ & Hl & _).
  exists q. repeat split; assumption.
Defined.

(* ===================================================================== *)
(** * Lemmas and properties of the type endpoints *)
(* ===================================================================== *)

Lemma get_json_eq `{Catalog} u h w :
  get_json u h w =
  (match body {| url := u; headers := h; params := None |} with
   | Some v => Done v | None => Fail (Builtin RequestException) end,
   after w [{| url := u; headers := h; params := None |}] []).
Proof. unfold get_json, after. simpl. by rewrite app_nil_r. Qed.

Lemma for_in_cons {A S} (x : A) (xs : list A) (body : S → A → T S) (s : S) (w : world) :
  for_in (x :: xs) body s w =
  match body s x w with
  | (Done s', w') => for_in xs body s' w'
  | (Fail e, w') => (Fail e, w')
  end.
Proof. reflexivity. Qed.

Lemma for_in_nil {A S} (body : S → A → T S) (s : S) (w : world) :
  for_in [] body s w = (Done s, w).
Proof. reflexivity. Qed.

Lemma check_types_valid `{SetOrder} (x : multi) :
  Forall (λ t, t ∈ _animal_types) (as_list x) → check_types (Some x) = Done tt.
Proof.
  intros Hv. unfold check_types. cbv zeta. rewrite nonempty_difference.
  rewrite bool_decide_eq_false_2; [done|]. intros Hne. apply Hne.
  destruct (list_difference _ _) as [|t l] eqn:E; [done|].
  assert (t ∈ list_difference (remove_dups (as_list x)) _animal_types) as Hin
    by (rewrite E; left).
  apply list_elem_of_difference in Hin as [Hin Hnot].
  rewrite elem_of_remove_dups in Hin. rewrite Forall_forall in Hv.
  destruct (Hnot (Hv t Hin)).
Qed.

Lemma check_types_invalid `{SetOrder} (x : multi) (t : string) :
  t ∈ as_list x → t ∉ _animal_types →
  check_types (Some x) = Fail (Builtin (ValueError types_message)).
Proof.
  intros Hin Hnot. unfold check_types. cbv zeta. rewrite nonempty_difference.
  rewrite bool_decide_eq_true_2; [done|]. intros E.
  assert (t ∈ list_difference (remove_dups (as_list x)) _animal_types) as Hd.
  { apply list_elem_of_difference. split; [by apply elem_of_remove_dups|done]. }
  rewrite E in Hd. by apply elem_of_nil in Hd.
Qed.

Section AnimalTypes.
Context `{SetOrder} `{Catalog} (self : Petfinder).

Lemma animal_types_body_eq acc t w :
  animal_types_body self acc t w =
  (match body (type_request self t) with
   | Some b => match getitem b "type" with Done x => Done (acc ++ [x]) | Fail e => Fail e end
   | None => Fail (Builtin RequestException)
   end,
   after w [type_request self t] []).
Proof.
  unfold animal_types_body. unfold mbind at 1. unfold T_bind. rewrite get_json_eq.
  fold (type_request self t).
  destruct (body (type_request self t)) as [b|]; [|done].
  unfold mbind, T_bind, pure, mret, T_ret. by destruct (getitem b "type").
Qed.

Lemma animal_types_loop ts vs acc w :
  Forall2 (λ t v, ∃ b, body (type_request self t) = Some b ∧ getitem b "type" = Done v) ts vs →
  for_in ts (animal_types_body self) acc w
  = (Done (acc ++ vs), after w (type_request self <$> ts) []).
Proof.
  intros HF. revert acc w. induction HF as [|t v ts vs (b & Hb & Hv) HF IH]; intros acc w.
  - by rewrite for_in_nil, app_nil_r, after_nil.
  - rewrite for_in_cons, animal_types_body_eq, Hb, Hv, IH, after_after.
    by rewrite <- app_assoc.
Qed.

Lemma animal_types_loop_fails xs vs x ys acc w (e : error) :
  Forall2 (λ t v, ∃ b, body (type_request self t) = Some b ∧ getitem b "type" = Done v) xs vs →
  match body (type_request self x) with
  | Some b => getitem b "type" = Fail e
  | None => e = Builtin RequestException
  end →
  for_in (xs ++ x :: ys) (animal_types_body self) acc w
  = (Fail e, after w (type_request self <$> (xs ++ [x])) []).
Proof.
  intros HF Hx. revert acc w. induction HF as [|t v ts vs (b & Hb & Hv) HF IH]; intros acc w.
  - change ([] ++ x :: ys) with (x :: ys). rewrite for_in_cons, animal_types_body_eq.
    destruct (body (type_request self x)) as [b|]; [by rewrite Hx|by subst e].
  - change ((t :: ts) ++ x :: ys) with (t :: (ts ++ x :: ys)).
    by rewrite for_in_cons, animal_types_body_eq, Hb, Hv, IH, after_after.
Qed.

Lemma animal_types_collection_eq ts w :
  Forall (λ t, t ∈ _animal_types) ts →
  animal_types self (Some (Collection ts)) w =
  match for_in ts (animal_types_body self) [] w with
  | (Done vs, w') => (Done (JDict [("type", JList vs)]), w')
  | (Fail e, w') => (Fail e, w')
  end.
Proof.
  intros Hv. unfold animal_types. rewrite (check_types_valid (Collection ts)) by done.
  unfold mbind at 1. unfold T_bind, pure. unfold mbind at 1. unfold T_bind.
  change (@for_in T _ _ _ _ ts _ [] w) with (for_in ts (animal_types_body self) [] w).
  by destruct (for_in ts (animal_types_body self) [] w) as [[vs|e] w'].
Qed.

End AnimalTypes.

Section TypeEndpoints.
Context `{SetOrder} `{Catalog} (self : Petfinder).

(** X11: [animal_types] and [breeds] check the types first. When one of
    them (the type itself, or an element of the list or tuple) is not among
    the eight animal types, both raise [ValueError] with one fixed message,
    which lists the eight types and not the value at fault, and issue no
    request. *)
Theorem invalid_type_raises_before_requests (x : multi) (t : string) (w : world) :
  t ∈ as_list x → t ∉ _animal_types →
  animal_types self (Some x) w = (Fail (Builtin (ValueError types_message)), w)
  ∧ ∀ return_df raw_results,
      breeds self (Some x) return_df raw_results w
      = (Fail (Builtin (ValueError types_message)), w).
Proof.
  intros Hin Hnot. split.
  - unfold animal_types. by rewrite (check_types_invalid x t).
  - intros return_df raw_results. unfold breeds. by rewrite (check_types_invalid x t).
Qed.

(** X12: [animal_types] returns the body as it is for no type and for one
    type given as a [str]. For a list or tuple it issues one request per
    element, in order (a repeated type is requested again), and returns
    [{'type': [...]}] with the value under ['type'] of each body; the empty
    list issues no request. *)
Theorem animal_types_results (w : world) :
  (∀ b, body (types_request self) = Some b →
        animal_types self None w = (Done b, after w [types_request self] []))
  ∧ (∀ t b, t ∈ _animal_types → body (type_request self t) = Some b →
        animal_types self (Some (Scalar t)) w = (Done b, after w [type_request self t] []))
  ∧ (∀ ts vs, Forall (λ t, t ∈ _animal_types) ts →
        Forall2 (λ t v, ∃ b, body (type_request self t) = Some b ∧ getitem b "type" = Done v)
          ts vs →
        animal_types self (Some (Collection ts)) w
        = (Done (JDict [("type", JList vs)]), after w (type_request self <$> ts) [])).
Proof.
  split; [|split].
  - intros b Hb. unfold animal_types, check_types, pure, mbind, T_bind.
    rewrite get_json_eq. fold (types_request self). by rewrite Hb.
  - intros t b Ht Hb. unfold animal_types.
    rewrite (check_types_valid (Scalar t)) by (by constructor).
    unfold pure, mbind, T_bind. rewrite get_json_eq. fold (type_request self t).
    by rewrite Hb.
  - intros ts vs Hv HF.
    by rewrite (animal_types_collection_eq self ts w Hv), (animal_types_loop self ts vs [] w HF).
Qed.

(** X13: over a list or tuple, [animal_types] stops at the first type whose
    request fails in the transport or whose body has no ['type'] to index:
    the exception propagates, the values collected so far are not returned,
    and the types after it are not requested. *)
Theorem animal_types_stops_at_first_failure (xs : list string) (vs : list json)
    (x : string) (ys : list string) (e : error) (w : world) :
  Forall (λ t, t ∈ _animal_types) (xs ++ x :: ys) →
  Forall2 (λ t v, ∃ b, body (type_request self t) = Some b ∧ getitem b "type" = Done v)
    xs vs →
  match body (type_request self x) with
  | Some b => getitem b "type" = Fail e
  | None => e = Builtin RequestException
  end →
  animal_types self (Some (Collection (xs ++ x :: ys))) w
  = (Fail e, after w (type_request self <$> (xs ++ [x])) []).
Proof.
  intros Hv HF Hx.
  by rewrite (animal_types_collection_eq self _ w Hv),
    (animal_types_loop_fails self xs vs x ys [] w e HF Hx).
Qed.

End TypeEndpoints.

Ltac listed := apply (bool_decide_unpack _); vm_compute; exact I.

Lemma invalid_type_raises_before_requests_witness :
  ("dragon" ∈ as_list (Collection ["dog"; "dragon"])) ∧ ("dragon" ∉ _animal_types)
  ∧ @animal_types insertion_order zoo client (Some (Collection ["dog"; "dragon"])) fresh
    = (Fail (Builtin (ValueError types_message)), fresh)
  ∧ @breeds insertion_order zoo client (Some (Collection ["dog"; "dragon"])) false false fresh
    = (Fail (Builtin (ValueError types_message)), fresh).
Proof.
  assert ("dragon" ∈ as_list (Collection ["dog"; "dragon"])) as Hin by listed.
  assert ("dragon" ∉ _animal_types) as Hnot by listed.
  destruct (@invalid_type_raises_before_requests insertion_order zoo client
              (Collection ["dog"; "dragon"]) "dragon" fresh Hin Hnot) as [Ha Hb].
  split; [exact Hin|split; [exact Hnot|split; [exact Ha|exact (Hb false false)]]].
Defined.

Lemma animal_types_results_witness :
  @animal_types insertion_order zoo client (Some (Collection ["dog"; "cat"])) fresh
  = (Done (JDict [("type", JList [JDict [("name", JStr "Dog")];
                                  JDict [("name", JStr "Cat")]])]),
     after fresh [type_request client "dog"; type_request client "cat"] [])
  ∧ @animal_types insertion_order zoo client (Some (Scalar "dog")) fresh
    = (Done (JDict [("type", JDict [("name", JStr "Dog")])]),
       after fresh [type_request client "dog"] []).
Proof.
  destruct (@animal_types_results insertion_order zoo client fresh) as (_ & Hs & Hc).
  split.
  - apply (Hc ["dog"; "cat"]).
    + repeat constructor; listed.
    + repeat constructor; eexists; split; reflexivity.
  - apply (Hs "dog"); [listed|reflexivity].
Defined.

Lemma animal_types_stops_at_first_failure_witness :
  @animal_types insertion_order zoo client
     (Some (Collection (["dog"] ++ "horse" :: ["cat"]))) fresh
  = (Fail (Builtin (KeyError "type")),
     after fresh [type_request client "dog"; type_request client "horse"] []).
Proof.
  apply (@animal_types_stops_at_first_failure insertion_order zoo client
           ["dog"] [JDict [("name", JStr "Dog")]] "horse" ["cat"]).
  - repeat constructor; listed.
  - repeat constructor. eexists; split; reflexivity.
  - reflexivity.
Defined.

Lemma dict_get_set {V} (k : string) (v : V) (d : list (string * V)) :
  dict_get k (dict_set k v d) = Some v.
Proof.
  induction d as [|[k' v'] d IH]; simpl.
  - by rewrite bool_decide_eq_true_2.
  - destruct (bool_decide (k' = k)) eqn:E; simpl; by rewrite E.
Qed.

Lemma dict_set_set {V} (k : string) (v v' : V) (d : list (string * V)) :
  dict_set k v' (dict_set k v d) = dict_set k v' d.
Proof.
  induction d as [|[k0 v0] d IH]; simpl.
  - by rewrite bool_decide_eq_true_2.
  - destruct (bool_decide (k0 = k)) eqn:E; simpl; rewrite E; [done|by rewrite IH].
Qed.

Lemma dict_set_get {V} (k : string) (v : V) (d : list (string * V)) :
  dict_get k d = Some v → dict_set k v d = d.
Proof.
  induction d as [|[k' v'] d IH]; simpl; [done|].
  destruct (bool_decide (k' = k)); [by intros [= ->]|]. intros Hd. by rewrite IH.
Qed.

Lemma for_in_seq {X St} (items : list X) (body : St → nat → outcome St)
    (body' : St → X → outcome St) (n : nat) (s : St) :
  (∀ s i x, items !! i = Some x → body s (n + i)%nat = body' s x) →
  for_in (seq n (length items)) body s = for_in items body' s.
Proof.
  revert n s. induction items as [|x items IH]; intros n s Hb; [done|].
  pose proof (Hb s 0%nat x eq_refl) as H0. rewrite Nat.add_0_r in H0.
  cbn [length seq for_in]. rewrite H0.
  unfold mbind, outcome_bind. destruct (body' s x) as [s'|e]; [|done].
  apply IH. intros s'' i x' Hi. rewrite <- (Hb s'' (S i) x' Hi). f_equal. lia.
Qed.

Lemma append_under_eq (type : string) (x : json) (l : list json)
    (d : list (string * list json)) :
  dict_get type d = Some l → append_under type x d = Done (dict_set type (l ++ [x]) d).
Proof. intros Hl. unfold append_under. by rewrite Hl. Qed.

Lemma append_loop (type : string) (breeds : list json) (l : list json)
    (d : list (string * list json)) :
  dict_get type d = Some l →
  for_in breeds (λ d breed, name ← getitem breed "name"; append_under type name d) d
  = (names ← gather breeds l; mret (dict_set type names d)).
Proof.
  revert l d. induction breeds as [|breed breeds IH]; intros l d Hl.
  - unfold gather. cbn [for_in]. unfold mret, outcome_ret, mbind, outcome_bind.
    by rewrite (dict_set_get _ _ _ Hl).
  - unfold gather. simpl.
    destruct (getitem breed "name") as [name|e]; simpl; [|done].
    rewrite (append_under_eq type name l d Hl).
    unfold mbind at 1. unfold outcome_bind at 1.
    rewrite (IH (l ++ [name])) by apply dict_get_set.
    unfold gather. simpl.
    destruct (for_in breeds _ (l ++ [name])) as [names|e]; simpl; [|done].
    unfold mret, outcome_ret. by rewrite dict_set_set.
Qed.

Lemma listed_keyed (types : list string) (bodies : list json) (i : nat) (t : string)
    (b : json) :
  types !! i = Some t → bodies !! i = Some b →
  listed (JDict [("breeds", JList (keyed types bodies))]) types i = getitem b "breeds".
Proof.
  intros Ht Hb. unfold listed, keyed. simpl.
  rewrite lookup_zip_with, Ht. simpl. rewrite Hb. simpl.
  unfold index. rewrite Ht. simpl. by rewrite bool_decide_eq_true_2.
Qed.

Lemma zip_lookup {A B} (l : list A) (k : list B) (i : nat) (a : A) (b : B) :
  zip l k !! i = Some (a, b) → l !! i = Some a ∧ k !! i = Some b.
Proof.
  intros Hz. apply lookup_zip_with_Some in Hz as (a' & b' & [= <- <-] & Ha & Hb). done.
Qed.

Lemma cleaned_keyed (types : list string) (bodies : list json) :
  length types = length bodies →
  cleaned (JDict [("breeds", JList (keyed types bodies))]) (Collection types)
  = for_in (zip types bodies) keep_names [].
Proof.
  intros Hlen. unfold cleaned.
  replace (length types) with (length (zip types bodies))
    by (rewrite length_zip_with; lia).
  apply for_in_seq. intros d i [t b] [Ht Hb]%zip_lookup.
  change (0 + i)%nat with i. unfold index. rewrite Ht.
  unfold mbind at 1. unfold outcome_bind at 1. cbv zeta.
  rewrite (listed_keyed types bodies i t b Ht Hb).
  unfold keep_names, names_of. cbn [fst snd].
  destruct (getitem b "breeds") as [x|e]; simpl; [|done].
  destruct (iterate x) as [breeds|e]; simpl; [|done].
  etrans; [apply (append_loop t breeds [] (dict_set t [] d)), dict_get_set|].
  unfold gather.
  destruct (for_in breeds _ []) as [names|e]; simpl; [|done].
  unfold mret, outcome_ret. by rewrite dict_set_set.
Qed.

Lemma cleaned_scalar (b : json) (t : string) :
  cleaned b (Scalar t) = (names ← names_of b; mret [(t, names)]).
Proof.
  unfold cleaned, names_of. cbv zeta.
  destruct (getitem b "breeds") as [x|e]; simpl; [|done].
  destruct (iterate x) as [breeds|e]; simpl; [|done].
  etrans; [apply (append_loop t breeds [] [(t, [])]); simpl;
           by rewrite bool_decide_eq_true_2|].
  unfold gather. destruct (for_in breeds _ []) as [names|e]; simpl; [|done].
  by rewrite bool_decide_eq_true_2.
Qed.

Lemma bind_Done {A B} (a : A) (f : A → outcome B) : (Done a ≫= f) = f a.
Proof. reflexivity. Qed.

Lemma bind_Fail {A B} (e : error) (f : A → outcome B) : (Fail e ≫= f) = Fail e.
Proof. reflexivity. Qed.

Lemma for_in_pair {A B St} (a : A) (b : B) (l : list A) (k : list B)
    (body : St → A * B → outcome St) (s : St) :
  for_in (zip (a :: l) (b :: k)) body s = (body s (a, b) ≫= for_in (zip l k) body).
Proof. reflexivity. Qed.

Lemma keep_names_eq (d : list (string * list json)) (t : string) (b : json) :
  keep_names d (t, b) = (names ← names_of b; mret (dict_set t names d)).
Proof. reflexivity. Qed.

Lemma keep_names_all (types : list string) (bodies : list json) (names : list (list json))
    (d : list (string * list json)) :
  Forall2 (λ b ns, names_of b = Done ns) bodies names →
  NoDup (d.*1 ++ types) →
  for_in (zip types bodies) keep_names d = Done (d ++ zip types names).
Proof.
  intros HF. revert types d.
  induction HF as [|b ns bodies names Hb HF IH]; intros types d Hnd.
  - destruct types; simpl; by rewrite app_nil_r.
  - destruct types as [|t types]; [simpl; by rewrite app_nil_r|].
    rewrite for_in_pair, keep_names_eq.
    rewrite Hb, !bind_Done. unfold mret, outcome_ret. rewrite ?bind_Done.
    rewrite dict_set_fresh.
    + rewrite IH.
      * simpl. by rewrite <- app_assoc.
      * rewrite fmap_app. simpl. by rewrite <- app_assoc.
    + apply NoDup_app in Hnd as (_ & Hd & _). intros Hin. apply (Hd t Hin). by left.
Qed.

Lemma keep_names_fails (types : list string) (bodies : list json)
    (names : list (list json)) (b : json) (rest : list json) (e : error)
    (d : list (string * list json)) :
  Forall2 (λ b ns, names_of b = Done ns) bodies names →
  names_of b = Fail e →
  length types = length (bodies ++ b :: rest) →
  for_in (zip types (bodies ++ b :: rest)) keep_names d = Fail e.
Proof.
  intros HF Hb. revert types d.
  induction HF as [|b' ns bodies names Hb' HF IH]; intros types d Hlen.
  - destruct types as [|t types]; [done|].
    change ([] ++ b :: rest) with (b :: rest). rewrite for_in_pair, keep_names_eq. by rewrite Hb.
  - destruct types as [|t types]; [done|].
    change ((b' :: bodies) ++ b :: rest) with (b' :: (bodies ++ b :: rest)).
    rewrite for_in_pair, keep_names_eq.
    rewrite Hb', !bind_Done. unfold mret, outcome_ret. rewrite ?bind_Done.
    apply IH. simpl in Hlen. lia.
Qed.

Section Breeds.
Context `{SetOrder} `{Catalog} (self : Petfinder).

Lemma breeds_eq types return_df raw_results w :
  breeds self types return_df raw_results w =
  match check_types types with
  | Done _ =>
      match fetch_breeds self types w with
      | (Done (result, types), w') => (finish_breeds result types return_df raw_results, w')
      | (Fail e, w') => (Fail e, w')
      end
  | Fail e => (Fail e, w)
  end.
Proof.
  unfold breeds. unfold mbind at 1. unfold T_bind. unfold pure at 1.
  destruct (check_types types) as [[]|e]; [|done].
  unfold mbind at 1. unfold T_bind.
  change (match types with
          | Some (Scalar t) => _
          | _ => _
          end w) with (fetch_breeds self types w).
  destruct (fetch_breeds self types w) as [[[result types']|e] w']; [|done].
  unfold finish_breeds. destruct return_df.
  - change (match types' with Collection _ => _ | Scalar _ => _ end)
      with (frame_of result types').
    unfold mbind at 1. unfold T_bind. unfold pure at 1.
    destruct (frame_of result types') as [df|e]; [|done].
    unfold mbind, T_bind, pure, outcome_bind. by destruct (breed_column df).
  - destruct raw_results; simpl; [done|].
    change (match types' with Collection _ => _ | Scalar _ => _ end)
      with (cleaned result types').
    unfold mbind at 1. unfold T_bind. unfold pure at 1.
    by destruct (cleaned result types') as [d|e].
Qed.

Lemma T_bind_eq {A B} (m : T A) (f : A → T B) w :
  (m ≫= f) w =
  match m w with
  | (Done a, w') => f a w'
  | (Fail e, w') => (Fail e, w')
  end.
Proof. reflexivity. Qed.

Lemma breeds_body_eq acc t w :
  breeds_body self acc t w =
  (match body (breeds_request self t) with
   | Some b => Done (acc ++ [JDict [(t, b)]])
   | None => Fail (Builtin RequestException)
   end,
   after w [breeds_request self t] []).
Proof.
  unfold breeds_body. unfold mbind at 1. unfold T_bind. rewrite get_json_eq.
  fold (breeds_request self t).
  by destruct (body (breeds_request self t)) as [b|].
Qed.

Lemma breeds_loop ts bs acc w :
  Forall2 (λ t b, body (breeds_request self t) = Some b) ts bs →
  for_in ts (breeds_body self) acc w
  = (Done (acc ++ keyed ts bs), after w (breeds_request self <$> ts) []).
Proof.
  intros HF. revert acc w. induction HF as [|t b ts bs Hb HF IH]; intros acc w.
  - by rewrite for_in_nil, app_nil_r, after_nil.
  - rewrite for_in_cons, breeds_body_eq, Hb, IH, after_after.
    by rewrite <- app_assoc.
Qed.

Lemma breeds_loop_fails xs bs x ys acc w :
  Forall2 (λ t b, body (breeds_request self t) = Some b) xs bs →
  body (breeds_request self x) = None →
  for_in (xs ++ x :: ys) (breeds_body self) acc w
  = (Fail (Builtin RequestException), after w (breeds_request self <$> (xs ++ [x])) []).
Proof.
  intros HF Hx. revert acc w. induction HF as [|t b ts bs Hb HF IH]; intros acc w.
  - change ([] ++ x :: ys) with (x :: ys). by rewrite for_in_cons, breeds_body_eq, Hx.
  - change ((t :: ts) ++ x :: ys) with (t :: (ts ++ x :: ys)).
    by rewrite for_in_cons, breeds_body_eq, Hb, IH, after_after.
Qed.

Lemma fetch_collection ts bs w :
  Forall2 (λ t b, body (breeds_request self t) = Some b) ts bs →
  fetch_breeds self (Some (Collection ts)) w
  = (Done (JDict [("breeds", JList (keyed ts bs))], Collection ts),
     after w (breeds_request self <$> ts) []).
Proof.
  intros HF. unfold fetch_breeds. cbv zeta.
  by rewrite T_bind_eq, (breeds_loop ts bs [] w HF).
Qed.

Lemma fetch_scalar t b w :
  body (breeds_request self t) = Some b →
  fetch_breeds self (Some (Scalar t)) w
  = (Done (b, Scalar t), after w [breeds_request self t] []).
Proof.
  intros Hb. unfold fetch_breeds, mbind, T_bind. rewrite get_json_eq.
  fold (breeds_request self t). by rewrite Hb.
Qed.

(** X14: [breeds] without [types] is [breeds] of the eight animal types,
    in the order dog, cat, rabbit, small-furry, horse, bird,
    scales-fins-other, barnyard: same requests, same result. *)
Theorem breeds_default_is_every_type (return_df raw_results : bool) (w : world) :
  breeds self None return_df raw_results w
  = breeds self (Some (Collection _animal_types)) return_df raw_results w.
Proof.
  rewrite !breeds_eq.
  rewrite (check_types_valid (Collection _animal_types)).
  - reflexivity.
  - repeat constructor; apply (bool_decide_unpack _); vm_compute; exact I.
Qed.

(** X15: with [raw_results] (and no [return_df]) [breeds] does not look
    into the bodies. For one type given as a [str] it returns the body as
    it is; for a list or tuple it issues one request per element, in order,
    and returns [{'breeds': [{type: body}, ...]}]. *)
Theorem breeds_raw_results (w : world) :
  (∀ t b, t ∈ _animal_types → body (breeds_request self t) = Some b →
      breeds self (Some (Scalar t)) false true w
      = (Done (Json b), after w [breeds_request self t] []))
  ∧ (∀ ts bs, Forall (λ t, t ∈ _animal_types) ts →
      Forall2 (λ t b, body (breeds_request self t) = Some b) ts bs →
      breeds self (Some (Collection ts)) false true w
      = (Done (Json (JDict [("breeds", JList (keyed ts bs))])),
         after w (breeds_request self <$> ts) [])).
Proof.
  split.
  - intros t b Ht Hb. rewrite breeds_eq, (check_types_valid (Scalar t)) by (by constructor).
    by rewrite (fetch_scalar t b w Hb).
  - intros ts bs Hv HF. rewrite breeds_eq, (check_types_valid (Collection ts)) by done.
    by rewrite (fetch_collection ts bs w HF).
Qed.

(** X16: by default [breeds] returns the names only. When each body holds
    under ['breeds'] a list of breeds that each have a ['name'], the result
    is [{'breeds': {type: [name, ...]}}]: for a list or tuple of distinct
    types, one entry per type, in the order of the types, with the names in
    the order of the body. *)
Theorem breeds_names (w : world) :
  (∀ t b ns, t ∈ _animal_types → body (breeds_request self t) = Some b →
      names_of b = Done ns →
      breeds self (Some (Scalar t)) false false w
      = (Done (Json (json_result [(t, ns)])), after w [breeds_request self t] []))
  ∧ (∀ ts bs nss, Forall (λ t, t ∈ _animal_types) ts → NoDup ts →
      Forall2 (λ t b, body (breeds_request self t) = Some b) ts bs →
      Forall2 (λ b ns, names_of b = Done ns) bs nss →
      breeds self (Some (Collection ts)) false false w
      = (Done (Json (json_result (zip ts nss))), after w (breeds_request self <$> ts) [])).
Proof.
  split.
  - intros t b ns Ht Hb Hns.
    rewrite breeds_eq, (check_types_valid (Scalar t)) by (by constructor).
    rewrite (fetch_scalar t b w Hb). unfold finish_breeds. cbn [negb].
    by rewrite cleaned_scalar, Hns.
  - intros ts bs nss Hv Hnd HF Hns.
    rewrite breeds_eq, (check_types_valid (Collection ts)) by done.
    rewrite (fetch_collection ts bs w HF). unfold finish_breeds. cbn [negb].
    rewrite cleaned_keyed by (by eapply Forall2_length).
    by rewrite (keep_names_all ts bs nss [] Hns Hnd).
Qed.

(** X17: [breeds] looks into the bodies only after every request is
    issued. When a body has no ['breeds'] to index or to iterate over, or a
    breed in it no ['name'], the exception propagates and nothing is
    returned, but the requests for all the types have been issued: unlike
    [animal_types], a bad body does not stop the requests. *)
Theorem breeds_checks_bodies_after_requests (ts : list string) (bs : list json)
    (nss : list (list json)) (b : json) (rest : list json) (e : error) (w : world) :
  Forall (λ t, t ∈ _animal_types) ts →
  Forall2 (λ t b, body (breeds_request self t) = Some b) ts (bs ++ b :: rest) →
  Forall2 (λ b ns, names_of b = Done ns) bs nss →
  names_of b = Fail e →
  breeds self (Some (Collection ts)) false false w
  = (Fail e, after w (breeds_request self <$> ts) []).
Proof.
  intros Hv HF Hns Hb.
  rewrite breeds_eq, (check_types_valid (Collection ts)) by done.
  rewrite (fetch_collection ts _ w HF). unfold finish_breeds. cbn [negb].
  rewrite cleaned_keyed by (by eapply Forall2_length).
  rewrite (keep_names_fails ts bs nss b rest e [] Hns Hb); [done|].
  by eapply Forall2_length.
Qed.

(** X18: the requests of [breeds] stop at the first type whose request
    fails in the transport: the exception propagates whatever [return_df]
    and [raw_results] are, and the types after it are not requested. *)
Theorem breeds_stops_at_failed_request (xs : list string) (bs : list json) (x : string)
    (ys : list string) (return_df raw_results : bool) (w : world) :
  Forall (λ t, t ∈ _animal_types) (xs ++ x :: ys) →
  Forall2 (λ t b, body (breeds_request self t) = Some b) xs bs →
  body (breeds_request self x) = None →
  breeds self (Some (Collection (xs ++ x :: ys))) return_df raw_results w
  = (Fail (Builtin RequestException), after w (breeds_request self <$> (xs ++ [x])) []).
Proof.
  intros Hv HF Hx.
  rewrite breeds_eq, (check_types_valid (Collection (xs ++ x :: ys))) by done.
  unfold fetch_breeds. cbv zeta.
  by rewrite T_bind_eq, (breeds_loop_fails xs bs x ys [] w HF Hx).
Qed.

End Breeds.

Lemma breeds_raw_results_witness :
  @breeds insertion_order zoo client (Some (Collection ["dog"; "cat"])) false true fresh
  = (Done (Json (JDict [("breeds", JList [JDict [("dog", dog_breeds)];
                                          JDict [("cat", cat_breeds)]])])),
     after fresh [breeds_request client "dog"; breeds_request client "cat"] [])
  ∧ @breeds insertion_order zoo client (Some (Scalar "cat")) false true fresh
    = (Done (Json cat_breeds), after fresh [breeds_request client "cat"] []).
Proof.
  destruct (@breeds_raw_results insertion_order zoo client fresh) as [Hs Hc].
  split.
  - apply (Hc ["dog"; "cat"] [dog_breeds; cat_breeds]).
    + repeat constructor; listed.
    + repeat constructor.
  - apply (Hs "cat" cat_breeds); [listed|reflexivity].
Defined.

Lemma breeds_names_witness :
  @breeds insertion_order zoo client (Some (Collection ["dog"; "cat"])) false false fresh
  = (Done (Json (JDict [("breeds",
                         JDict [("dog", JList [JStr "Akita"; JStr "Beagle"]);
                                ("cat", JList [JStr "Siamese"])])])),
     after fresh [breeds_request client "dog"; breeds_request client "cat"] [])
  ∧ @breeds insertion_order zoo client (Some (Scalar "cat")) false false fresh
    = (Done (Json (JDict [("breeds", JDict [("cat", JList [JStr "Siamese"])])])),
       after fresh [breeds_request client "cat"] []).
Proof.
  destruct (@breeds_names insertion_order zoo client fresh) as [Hs Hc].
  split.
  - apply (Hc ["dog"; "cat"] [dog_breeds; cat_breeds]
              [[JStr "Akita"; JStr "Beagle"]; [JStr "Siamese"]]).
    + repeat constructor; listed.
    + apply (bool_decide_unpack _). vm_compute. exact I.
    + repeat constructor.
    + repeat constructor.
  - apply (Hs "cat" cat_breeds [JStr "Siamese"]); [listed|reflexivity|reflexivity].
Defined.

Lemma breeds_checks_bodies_after_requests_witness :
  @breeds insertion_order zoo client (Some (Collection ["dog"; "horse"; "cat"]))
     false false fresh
  = (Fail (Builtin (KeyError "breeds")),
     after fresh [breeds_request client "dog"; breeds_request client "horse";
                  breeds_request client "cat"] []).
Proof.
  apply (@breeds_checks_bodies_after_requests insertion_order zoo client
           ["dog"; "horse"; "cat"] [dog_breeds] [[JStr "Akita"; JStr "Beagle"]]
           horse_breeds [cat_breeds]).
  - repeat constructor; listed.
  - repeat constructor.
  - repeat constructor.
  - reflexivity.
Defined.

Lemma breeds_stops_at_failed_request_witness :
  @breeds insertion_order zoo client (Some (Collection (["dog"] ++ "bird" :: ["cat"])))
     false false fresh
  = (Fail (Builtin RequestException),
     after fresh [breeds_request client "dog"; breeds_request client "bird"] []).
Proof.
  apply (@breeds_stops_at_failed_request insertion_order zoo client
           ["dog"] [dog_breeds] "bird" ["cat"]).
  - repeat constructor; listed.
  - repeat constructor.
  - reflexivity.
Defined.

Section Frames.
Context `{SetOrder} `{Catalog} (self : Petfinder).





End Frames.

Section Fetches.
Context `{Catalog} (P : request → Prop).

Lemma fetches_ret {A} (a : A) : fetches P (mret a).
Proof. intros w. exists []. by rewrite after_nil. Qed.

Lemma fetches_pure {A} (r : outcome A) : fetches P (pure r).
Proof. intros w. exists []. by rewrite after_nil. Qed.

Lemma fetches_get u h :
  P {| url := u; headers := h; params := None |} → fetches P (get_json u h).
Proof.
  intros HP w. exists [{| url := u; headers := h; params := None |}].
  rewrite get_json_eq. split; [done|]. by constructor.
Qed.

Lemma fetches_bind {A B} (m : T A) (f : A → T B) :
  fetches P m → (∀ a, fetches P (f a)) → fetches P (m ≫= f).
Proof.
  intros Hm Hf w. destruct (Hm w) as (rs & Hw & Hrs).
  rewrite T_bind_eq. destruct (m w) as [[a|e] w'] eqn:Hmw; simpl in Hw; subst w'.
  - destruct (Hf a (after w rs [])) as (rs' & Hw' & Hrs').
    exists (rs ++ rs'). rewrite Hw', after_after. split; [done|].
    by apply Forall_app.
  - by exists rs.
Qed.

Lemma fetches_for_in {A St} (xs : list A) (body : St → A → T St) (s : St) :
  (∀ s x, fetches P (body s x)) → fetches P (for_in xs body s).
Proof.
  intros Hb. revert s. induction xs as [|x xs IH]; intros s.
  - apply fetches_ret.
  - apply fetches_bind; [apply Hb|apply IH].
Qed.

Lemma fetches_animal_types `{SetOrder} self types :
  P (types_request self) → (∀ t, P (type_request self t)) →
  fetches P (animal_types self types).
Proof.
  intros HPs HPt. unfold animal_types.
  apply fetches_bind; [apply fetches_pure|]. intros _.
  destruct types as [[t|ts]|].
  - apply fetches_get, HPt.
  - apply fetches_bind; [|intros; apply fetches_ret].
    apply fetches_for_in. intros s t.
    apply fetches_bind; [apply fetches_get, HPt|]. intros r.
    apply fetches_bind; [apply fetches_pure|]. intros x. apply fetches_ret.
  - apply fetches_get, HPs.
Qed.

Lemma fetches_breeds `{SetOrder} self types return_df raw_results :
  (∀ t, P (breeds_request self t)) →
  fetches P (breeds self types return_df raw_results).
Proof.
  intros HPt. unfold breeds.
  apply fetches_bind; [apply fetches_pure|]. intros _.
  apply fetches_bind.
  - destruct types as [[t|ts]|].
    + apply fetches_bind; [apply fetches_get, HPt|]. intros r. apply fetches_ret.
    + apply fetches_bind; [|intros; apply fetches_ret].
      apply fetches_for_in. intros s t.
      apply fetches_bind; [apply fetches_get, HPt|]. intros r. apply fetches_ret.
    + apply fetches_bind; [|intros; apply fetches_ret].
      apply fetches_for_in. intros s t.
      apply fetches_bind; [apply fetches_get, HPt|]. intros r. apply fetches_ret.
  - intros [result types']. destruct return_df; [|destruct raw_results]; simpl.
    + apply fetches_bind; [apply fetches_pure|]. intros df.
      apply fetches_bind; [apply fetches_pure|]. intros df'. apply fetches_ret.
    + apply fetches_ret.
    + apply fetches_bind; [apply fetches_pure|]. intros d. apply fetches_ret.
Qed.

End Fetches.

Lemma authorized_types self : authorized self (types_request self) = true.
Proof.
  unfold authorized, types_request, urljoin. cbn [headers url].
  rewrite bool_decide_eq_true_2 by done. apply prefix_app.
Qed.

Lemma authorized_type self t : authorized self (type_request self t) = true.
Proof.
  unfold authorized, type_request, type_url, urljoin. cbn [headers url].
  rewrite bool_decide_eq_true_2 by done. apply prefix_app.
Qed.

Lemma authorized_breeds self t : authorized self (breeds_request self t) = true.
Proof.
  unfold authorized, breeds_request, breeds_url, urljoin. cbn [headers url].
  rewrite bool_decide_eq_true_2 by done. apply prefix_app.
Qed.

(** X20: whatever the arguments and whatever the server answers,
    [animal_types] and [breeds] print nothing and only add requests to
    those issued, each to an address under [self.host] with the one header
    [Authorization: Bearer <self.auth>]. *)
Theorem type_requests_are_authorized `{SetOrder} `{Catalog} (self : Petfinder) (w : world) :
  (∀ types, ∃ rs, (animal_types self types w).2 = after w rs []
                  ∧ forallb (authorized self) rs = true)
  ∧ (∀ types return_df raw_results,
       ∃ rs, (breeds self types return_df raw_results w).2 = after w rs []
             ∧ forallb (authorized self) rs = true).
Proof.
  split.
  - intros types.
    destruct (fetches_animal_types (λ r, authorized self r = true) self types
                (authorized_types self) (authorized_type self) w) as (rs & Hw & Hrs).
    exists rs. split; [done|]. by apply forallb_intro.
  - intros types return_df raw_results.
    destruct (fetches_breeds (λ r, authorized self r = true) self types return_df
                raw_results (authorized_breeds self) w) as (rs & Hw & Hrs).
    exists rs. split; [done|]. by apply forallb_intro.
Qed.

